(** * SEED-128 block cipher (package dkrcrypt, file seed.go)

    A shallow embedding of the Go implementation and the proofs of the
    properties its specification states.

    Conventions.
    - A [uint32] is a [Z] in the range [0, 2^32); every operation that can
      leave the range in Go ([+], [-], [<<]) wraps explicitly.
    - A [[]byte] is a [list byte]; [bytes.Buffer] is the list of the bytes
      that are still unread (reading) or already written (writing).
    - The receiver [c *SEEDCipher] is threaded through a state monad whose
      outcome is either a normal return or a run-time panic, so that
      "this method does not touch the round keys" and "this call does not
      panic" are statements about the model and not artefacts of it.
    - The arrays [k0], [k1 : [17]uint32] are lists addressed with stdpp's
      lookup and insert; an index outside the list panics, as in Go. *)

From Stdlib Require Import ZArith Lia List.
From coqutil Require Import Byte Z.bitblast.
From stdpp Require Import base list.
Import ListNotations.
Local Open Scope Z_scope.

(** ** Machine words *)

Module U32.

Definition wrap (z : Z) : Z := z mod 2 ^ 32.

Definition add (x y : Z) : Z := wrap (x + y).
Definition sub (x y : Z) : Z := wrap (x - y).
Definition shl (x n : Z) : Z := wrap (Z.shiftl x n).
Definition shr (x n : Z) : Z := Z.shiftr x n.

(** The values a [uint32] variable can hold. *)
Definition ok (x : Z) : Prop := 0 <= x < 2 ^ 32.

End U32.

(** ** The parts of Go's library the file uses *)

Module binary.

(** [binary.BigEndian.Uint32]. *)
Definition Uint32 (b0 b1 b2 b3 : byte) : Z :=
  Z.lor (Z.lor (Z.lor (byte.unsigned b3)
                      (Z.shiftl (byte.unsigned b2) 8))
               (Z.shiftl (byte.unsigned b1) 16))
        (Z.shiftl (byte.unsigned b0) 24).

(** [binary.BigEndian.PutUint32]: the conversion [byte(v >> s)] keeps the
    low eight bits. *)
Definition PutUint32 (v : Z) : list byte :=
  [ byte.of_Z (Z.shiftr v 24); byte.of_Z (Z.shiftr v 16);
    byte.of_Z (Z.shiftr v 8); byte.of_Z v ].

(** [binary.Read(buf, binary.BigEndian, &data)] on a [bytes.Buffer] and a
    [*uint32], with the error it returns dropped as the callers drop it.
    With four unread bytes it consumes them and stores the word.  With
    fewer, [io.ReadFull] drains what is left, reports [io.EOF] or
    [io.ErrUnexpectedEOF], and [data] keeps its old value. *)
Definition Read (buf : list byte) (data : Z) : list byte * Z :=
  match buf with
  | b0 :: b1 :: b2 :: b3 :: rest => (rest, Uint32 b0 b1 b2 b3)
  | _ => ([], data)
  end.

(** [binary.Write(buf, binary.BigEndian, v)] for a [uint32]: appends four
    bytes; a [bytes.Buffer] write does not fail. *)
Definition Write (buf : list byte) (v : Z) : list byte := buf ++ PutUint32 v.

End binary.

(** The builtin [copy(dst, src)]: it copies [min(len(dst), len(src))]
    elements and leaves the rest of [dst] alone.  The result is the new
    contents of [dst]. *)
Definition copy (dst src : list byte) : list byte :=
  let n := Nat.min (length dst) (length src) in
  take n src ++ drop n dst.

(** Indexing a global table whose index is known to be in range. *)
Definition at_ (tbl : list Z) (i : Z) : Z := nth (Z.to_nat i) tbl 0.

(** ** Byte rotations *)

(** rotate 64 bits left by one byte *)
Definition rotlbyte32 (x0 x1 : Z) : Z * Z :=
  let b0 := U32.shr (Z.land x0 0xff000000) 24 in
  let b1 := U32.shr (Z.land x1 0xff000000) 24 in
  let x0 := Z.lor (U32.shl x0 8) b1 in
  let x1 := Z.lor (U32.shl x1 8) b0 in
  (x0, x1).

(** rotate 64 bits right by one byte *)
Definition rotrbyte32 (x0 x1 : Z) : Z * Z :=
  let b0 := U32.shl (Z.land x0 0x000000ff) 24 in
  let b1 := U32.shl (Z.land x1 0x000000ff) 24 in
  let x0 := Z.lor (U32.shr x0 8) b1 in
  let x1 := Z.lor (U32.shr x1 8) b0 in
  (x0, x1).

(** ** Constants *)

Definition kc : list Z := [
  0x00000000;
  0x9E3779B9; 0x3C6EF373; 0x78DDE6E6; 0xF1BBCDCC;
  0xE3779B99; 0xC6EF3733; 0x8DDE6E67; 0x1BBCDCCF;
  0x3779B99E; 0x6EF3733C; 0xDDE6E678; 0xBBCDCCF1;
  0x779B99E3; 0xEF3733C6; 0xDE6E678D; 0xBCDCCF1B
].

(** Extended S-boxes from Appendix A of RFC 4269. *)
Definition ss0 : list Z := [
  0x2989A1A8; 0x05858184; 0x16C6D2D4; 0x13C3D3D0; 0x14445054; 0x1D0D111C; 0x2C8CA0AC; 0x25052124;
  0x1D4D515C; 0x03434340; 0x18081018; 0x1E0E121C; 0x11415150; 0x3CCCF0FC; 0x0ACAC2C8; 0x23436360;
  0x28082028; 0x04444044; 0x20002020; 0x1D8D919C; 0x20C0E0E0; 0x22C2E2E0; 0x08C8C0C8; 0x17071314;
  0x2585A1A4; 0x0F8F838C; 0x03030300; 0x3B4B7378; 0x3B8BB3B8; 0x13031310; 0x12C2D2D0; 0x2ECEE2EC;
  0x30407070; 0x0C8C808C; 0x3F0F333C; 0x2888A0A8; 0x32023230; 0x1DCDD1DC; 0x36C6F2F4; 0x34447074;
  0x2CCCE0EC; 0x15859194; 0x0B0B0308; 0x17475354; 0x1C4C505C; 0x1B4B5358; 0x3D8DB1BC; 0x01010100;
  0x24042024; 0x1C0C101C; 0x33437370; 0x18889098; 0x10001010; 0x0CCCC0CC; 0x32C2F2F0; 0x19C9D1D8;
  0x2C0C202C; 0x27C7E3E4; 0x32427270; 0x03838380; 0x1B8B9398; 0x11C1D1D0; 0x06868284; 0x09C9C1C8;
  0x20406060; 0x10405050; 0x2383A3A0; 0x2BCBE3E8; 0x0D0D010C; 0x3686B2B4; 0x1E8E929C; 0x0F4F434C;
  0x3787B3B4; 0x1A4A5258; 0x06C6C2C4; 0x38487078; 0x2686A2A4; 0x12021210; 0x2F8FA3AC; 0x15C5D1D4;
  0x21416160; 0x03C3C3C0; 0x3484B0B4; 0x01414140; 0x12425250; 0x3D4D717C; 0x0D8D818C; 0x08080008;
  0x1F0F131C; 0x19899198; 0x00000000; 0x19091118; 0x04040004; 0x13435350; 0x37C7F3F4; 0x21C1E1E0;
  0x3DCDF1FC; 0x36467274; 0x2F0F232C; 0x27072324; 0x3080B0B0; 0x0B8B8388; 0x0E0E020C; 0x2B8BA3A8;
  0x2282A2A0; 0x2E4E626C; 0x13839390; 0x0D4D414C; 0x29496168; 0x3C4C707C; 0x09090108; 0x0A0A0208;
  0x3F8FB3BC; 0x2FCFE3EC; 0x33C3F3F0; 0x05C5C1C4; 0x07878384; 0x14041014; 0x3ECEF2FC; 0x24446064;
  0x1ECED2DC; 0x2E0E222C; 0x0B4B4348; 0x1A0A1218; 0x06060204; 0x21012120; 0x2B4B6368; 0x26466264;
  0x02020200; 0x35C5F1F4; 0x12829290; 0x0A8A8288; 0x0C0C000C; 0x3383B3B0; 0x3E4E727C; 0x10C0D0D0;
  0x3A4A7278; 0x07474344; 0x16869294; 0x25C5E1E4; 0x26062224; 0x00808080; 0x2D8DA1AC; 0x1FCFD3DC;
  0x2181A1A0; 0x30003030; 0x37073334; 0x2E8EA2AC; 0x36063234; 0x15051114; 0x22022220; 0x38083038;
  0x34C4F0F4; 0x2787A3A4; 0x05454144; 0x0C4C404C; 0x01818180; 0x29C9E1E8; 0x04848084; 0x17879394;
  0x35053134; 0x0BCBC3C8; 0x0ECEC2CC; 0x3C0C303C; 0x31417170; 0x11011110; 0x07C7C3C4; 0x09898188;
  0x35457174; 0x3BCBF3F8; 0x1ACAD2D8; 0x38C8F0F8; 0x14849094; 0x19495158; 0x02828280; 0x04C4C0C4;
  0x3FCFF3FC; 0x09494148; 0x39093138; 0x27476364; 0x00C0C0C0; 0x0FCFC3CC; 0x17C7D3D4; 0x3888B0B8;
  0x0F0F030C; 0x0E8E828C; 0x02424240; 0x23032320; 0x11819190; 0x2C4C606C; 0x1BCBD3D8; 0x2484A0A4;
  0x34043034; 0x31C1F1F0; 0x08484048; 0x02C2C2C0; 0x2F4F636C; 0x3D0D313C; 0x2D0D212C; 0x00404040;
  0x3E8EB2BC; 0x3E0E323C; 0x3C8CB0BC; 0x01C1C1C0; 0x2A8AA2A8; 0x3A8AB2B8; 0x0E4E424C; 0x15455154;
  0x3B0B3338; 0x1CCCD0DC; 0x28486068; 0x3F4F737C; 0x1C8C909C; 0x18C8D0D8; 0x0A4A4248; 0x16465254;
  0x37477374; 0x2080A0A0; 0x2DCDE1EC; 0x06464244; 0x3585B1B4; 0x2B0B2328; 0x25456164; 0x3ACAF2F8;
  0x23C3E3E0; 0x3989B1B8; 0x3181B1B0; 0x1F8F939C; 0x1E4E525C; 0x39C9F1F8; 0x26C6E2E4; 0x3282B2B0;
  0x31013130; 0x2ACAE2E8; 0x2D4D616C; 0x1F4F535C; 0x24C4E0E4; 0x30C0F0F0; 0x0DCDC1CC; 0x08888088;
  0x16061214; 0x3A0A3238; 0x18485058; 0x14C4D0D4; 0x22426260; 0x29092128; 0x07070304; 0x33033330;
  0x28C8E0E8; 0x1B0B1318; 0x05050104; 0x39497178; 0x10809090; 0x2A4A6268; 0x2A0A2228; 0x1A8A9298
].

Definition ss1 : list Z := [
  0x38380830; 0xE828C8E0; 0x2C2D0D21; 0xA42686A2; 0xCC0FCFC3; 0xDC1ECED2; 0xB03383B3; 0xB83888B0;
  0xAC2F8FA3; 0x60204060; 0x54154551; 0xC407C7C3; 0x44044440; 0x6C2F4F63; 0x682B4B63; 0x581B4B53;
  0xC003C3C3; 0x60224262; 0x30330333; 0xB43585B1; 0x28290921; 0xA02080A0; 0xE022C2E2; 0xA42787A3;
  0xD013C3D3; 0x90118191; 0x10110111; 0x04060602; 0x1C1C0C10; 0xBC3C8CB0; 0x34360632; 0x480B4B43;
  0xEC2FCFE3; 0x88088880; 0x6C2C4C60; 0xA82888A0; 0x14170713; 0xC404C4C0; 0x14160612; 0xF434C4F0;
  0xC002C2C2; 0x44054541; 0xE021C1E1; 0xD416C6D2; 0x3C3F0F33; 0x3C3D0D31; 0x8C0E8E82; 0x98188890;
  0x28280820; 0x4C0E4E42; 0xF436C6F2; 0x3C3E0E32; 0xA42585A1; 0xF839C9F1; 0x0C0D0D01; 0xDC1FCFD3;
  0xD818C8D0; 0x282B0B23; 0x64264662; 0x783A4A72; 0x24270723; 0x2C2F0F23; 0xF031C1F1; 0x70324272;
  0x40024242; 0xD414C4D0; 0x40014141; 0xC000C0C0; 0x70334373; 0x64274763; 0xAC2C8CA0; 0x880B8B83;
  0xF437C7F3; 0xAC2D8DA1; 0x80008080; 0x1C1F0F13; 0xC80ACAC2; 0x2C2C0C20; 0xA82A8AA2; 0x34340430;
  0xD012C2D2; 0x080B0B03; 0xEC2ECEE2; 0xE829C9E1; 0x5C1D4D51; 0x94148490; 0x18180810; 0xF838C8F0;
  0x54174753; 0xAC2E8EA2; 0x08080800; 0xC405C5C1; 0x10130313; 0xCC0DCDC1; 0x84068682; 0xB83989B1;
  0xFC3FCFF3; 0x7C3D4D71; 0xC001C1C1; 0x30310131; 0xF435C5F1; 0x880A8A82; 0x682A4A62; 0xB03181B1;
  0xD011C1D1; 0x20200020; 0xD417C7D3; 0x00020202; 0x20220222; 0x04040400; 0x68284860; 0x70314171;
  0x04070703; 0xD81BCBD3; 0x9C1D8D91; 0x98198991; 0x60214161; 0xBC3E8EB2; 0xE426C6E2; 0x58194951;
  0xDC1DCDD1; 0x50114151; 0x90108090; 0xDC1CCCD0; 0x981A8A92; 0xA02383A3; 0xA82B8BA3; 0xD010C0D0;
  0x80018181; 0x0C0F0F03; 0x44074743; 0x181A0A12; 0xE023C3E3; 0xEC2CCCE0; 0x8C0D8D81; 0xBC3F8FB3;
  0x94168692; 0x783B4B73; 0x5C1C4C50; 0xA02282A2; 0xA02181A1; 0x60234363; 0x20230323; 0x4C0D4D41;
  0xC808C8C0; 0x9C1E8E92; 0x9C1C8C90; 0x383A0A32; 0x0C0C0C00; 0x2C2E0E22; 0xB83A8AB2; 0x6C2E4E62;
  0x9C1F8F93; 0x581A4A52; 0xF032C2F2; 0x90128292; 0xF033C3F3; 0x48094941; 0x78384870; 0xCC0CCCC0;
  0x14150511; 0xF83BCBF3; 0x70304070; 0x74354571; 0x7C3F4F73; 0x34350531; 0x10100010; 0x00030303;
  0x64244460; 0x6C2D4D61; 0xC406C6C2; 0x74344470; 0xD415C5D1; 0xB43484B0; 0xE82ACAE2; 0x08090901;
  0x74364672; 0x18190911; 0xFC3ECEF2; 0x40004040; 0x10120212; 0xE020C0E0; 0xBC3D8DB1; 0x04050501;
  0xF83ACAF2; 0x00010101; 0xF030C0F0; 0x282A0A22; 0x5C1E4E52; 0xA82989A1; 0x54164652; 0x40034343;
  0x84058581; 0x14140410; 0x88098981; 0x981B8B93; 0xB03080B0; 0xE425C5E1; 0x48084840; 0x78394971;
  0x94178793; 0xFC3CCCF0; 0x1C1E0E12; 0x80028282; 0x20210121; 0x8C0C8C80; 0x181B0B13; 0x5C1F4F53;
  0x74374773; 0x54144450; 0xB03282B2; 0x1C1D0D11; 0x24250521; 0x4C0F4F43; 0x00000000; 0x44064642;
  0xEC2DCDE1; 0x58184850; 0x50124252; 0xE82BCBE3; 0x7C3E4E72; 0xD81ACAD2; 0xC809C9C1; 0xFC3DCDF1;
  0x30300030; 0x94158591; 0x64254561; 0x3C3C0C30; 0xB43686B2; 0xE424C4E0; 0xB83B8BB3; 0x7C3C4C70;
  0x0C0E0E02; 0x50104050; 0x38390931; 0x24260622; 0x30320232; 0x84048480; 0x68294961; 0x90138393;
  0x34370733; 0xE427C7E3; 0x24240420; 0xA42484A0; 0xC80BCBC3; 0x50134353; 0x080A0A02; 0x84078783;
  0xD819C9D1; 0x4C0C4C40; 0x80038383; 0x8C0F8F83; 0xCC0ECEC2; 0x383B0B33; 0x480A4A42; 0xB43787B3
].

Definition ss2 : list Z := [
  0xA1A82989; 0x81840585; 0xD2D416C6; 0xD3D013C3; 0x50541444; 0x111C1D0D; 0xA0AC2C8C; 0x21242505;
  0x515C1D4D; 0x43400343; 0x10181808; 0x121C1E0E; 0x51501141; 0xF0FC3CCC; 0xC2C80ACA; 0x63602343;
  0x20282808; 0x40440444; 0x20202000; 0x919C1D8D; 0xE0E020C0; 0xE2E022C2; 0xC0C808C8; 0x13141707;
  0xA1A42585; 0x838C0F8F; 0x03000303; 0x73783B4B; 0xB3B83B8B; 0x13101303; 0xD2D012C2; 0xE2EC2ECE;
  0x70703040; 0x808C0C8C; 0x333C3F0F; 0xA0A82888; 0x32303202; 0xD1DC1DCD; 0xF2F436C6; 0x70743444;
  0xE0EC2CCC; 0x91941585; 0x03080B0B; 0x53541747; 0x505C1C4C; 0x53581B4B; 0xB1BC3D8D; 0x01000101;
  0x20242404; 0x101C1C0C; 0x73703343; 0x90981888; 0x10101000; 0xC0CC0CCC; 0xF2F032C2; 0xD1D819C9;
  0x202C2C0C; 0xE3E427C7; 0x72703242; 0x83800383; 0x93981B8B; 0xD1D011C1; 0x82840686; 0xC1C809C9;
  0x60602040; 0x50501040; 0xA3A02383; 0xE3E82BCB; 0x010C0D0D; 0xB2B43686; 0x929C1E8E; 0x434C0F4F;
  0xB3B43787; 0x52581A4A; 0xC2C406C6; 0x70783848; 0xA2A42686; 0x12101202; 0xA3AC2F8F; 0xD1D415C5;
  0x61602141; 0xC3C003C3; 0xB0B43484; 0x41400141; 0x52501242; 0x717C3D4D; 0x818C0D8D; 0x00080808;
  0x131C1F0F; 0x91981989; 0x00000000; 0x11181909; 0x00040404; 0x53501343; 0xF3F437C7; 0xE1E021C1;
  0xF1FC3DCD; 0x72743646; 0x232C2F0F; 0x23242707; 0xB0B03080; 0x83880B8B; 0x020C0E0E; 0xA3A82B8B;
  0xA2A02282; 0x626C2E4E; 0x93901383; 0x414C0D4D; 0x61682949; 0x707C3C4C; 0x01080909; 0x02080A0A;
  0xB3BC3F8F; 0xE3EC2FCF; 0xF3F033C3; 0xC1C405C5; 0x83840787; 0x10141404; 0xF2FC3ECE; 0x60642444;
  0xD2DC1ECE; 0x222C2E0E; 0x43480B4B; 0x12181A0A; 0x02040606; 0x21202101; 0x63682B4B; 0x62642646;
  0x02000202; 0xF1F435C5; 0x92901282; 0x82880A8A; 0x000C0C0C; 0xB3B03383; 0x727C3E4E; 0xD0D010C0;
  0x72783A4A; 0x43440747; 0x92941686; 0xE1E425C5; 0x22242606; 0x80800080; 0xA1AC2D8D; 0xD3DC1FCF;
  0xA1A02181; 0x30303000; 0x33343707; 0xA2AC2E8E; 0x32343606; 0x11141505; 0x22202202; 0x30383808;
  0xF0F434C4; 0xA3A42787; 0x41440545; 0x404C0C4C; 0x81800181; 0xE1E829C9; 0x80840484; 0x93941787;
  0x31343505; 0xC3C80BCB; 0xC2CC0ECE; 0x303C3C0C; 0x71703141; 0x11101101; 0xC3C407C7; 0x81880989;
  0x71743545; 0xF3F83BCB; 0xD2D81ACA; 0xF0F838C8; 0x90941484; 0x51581949; 0x82800282; 0xC0C404C4;
  0xF3FC3FCF; 0x41480949; 0x31383909; 0x63642747; 0xC0C000C0; 0xC3CC0FCF; 0xD3D417C7; 0xB0B83888;
  0x030C0F0F; 0x828C0E8E; 0x42400242; 0x23202303; 0x91901181; 0x606C2C4C; 0xD3D81BCB; 0xA0A42484;
  0x30343404; 0xF1F031C1; 0x40480848; 0xC2C002C2; 0x636C2F4F; 0x313C3D0D; 0x212C2D0D; 0x40400040;
  0xB2BC3E8E; 0x323C3E0E; 0xB0BC3C8C; 0xC1C001C1; 0xA2A82A8A; 0xB2B83A8A; 0x424C0E4E; 0x51541545;
  0x33383B0B; 0xD0DC1CCC; 0x60682848; 0x737C3F4F; 0x909C1C8C; 0xD0D818C8; 0x42480A4A; 0x52541646;
  0x73743747; 0xA0A02080; 0xE1EC2DCD; 0x42440646; 0xB1B43585; 0x23282B0B; 0x61642545; 0xF2F83ACA;
  0xE3E023C3; 0xB1B83989; 0xB1B03181; 0x939C1F8F; 0x525C1E4E; 0xF1F839C9; 0xE2E426C6; 0xB2B03282;
  0x31303101; 0xE2E82ACA; 0x616C2D4D; 0x535C1F4F; 0xE0E424C4; 0xF0F030C0; 0xC1CC0DCD; 0x80880888;
  0x12141606; 0x32383A0A; 0x50581848; 0xD0D414C4; 0x62602242; 0x21282909; 0x03040707; 0x33303303;
  0xE0E828C8; 0x13181B0B; 0x01040505; 0x71783949; 0x90901080; 0x62682A4A; 0x22282A0A; 0x92981A8A
].

Definition ss3 : list Z := [
  0x08303838; 0xC8E0E828; 0x0D212C2D; 0x86A2A426; 0xCFC3CC0F; 0xCED2DC1E; 0x83B3B033; 0x88B0B838;
  0x8FA3AC2F; 0x40606020; 0x45515415; 0xC7C3C407; 0x44404404; 0x4F636C2F; 0x4B63682B; 0x4B53581B;
  0xC3C3C003; 0x42626022; 0x03333033; 0x85B1B435; 0x09212829; 0x80A0A020; 0xC2E2E022; 0x87A3A427;
  0xC3D3D013; 0x81919011; 0x01111011; 0x06020406; 0x0C101C1C; 0x8CB0BC3C; 0x06323436; 0x4B43480B;
  0xCFE3EC2F; 0x88808808; 0x4C606C2C; 0x88A0A828; 0x07131417; 0xC4C0C404; 0x06121416; 0xC4F0F434;
  0xC2C2C002; 0x45414405; 0xC1E1E021; 0xC6D2D416; 0x0F333C3F; 0x0D313C3D; 0x8E828C0E; 0x88909818;
  0x08202828; 0x4E424C0E; 0xC6F2F436; 0x0E323C3E; 0x85A1A425; 0xC9F1F839; 0x0D010C0D; 0xCFD3DC1F;
  0xC8D0D818; 0x0B23282B; 0x46626426; 0x4A72783A; 0x07232427; 0x0F232C2F; 0xC1F1F031; 0x42727032;
  0x42424002; 0xC4D0D414; 0x41414001; 0xC0C0C000; 0x43737033; 0x47636427; 0x8CA0AC2C; 0x8B83880B;
  0xC7F3F437; 0x8DA1AC2D; 0x80808000; 0x0F131C1F; 0xCAC2C80A; 0x0C202C2C; 0x8AA2A82A; 0x04303434;
  0xC2D2D012; 0x0B03080B; 0xCEE2EC2E; 0xC9E1E829; 0x4D515C1D; 0x84909414; 0x08101818; 0xC8F0F838;
  0x47535417; 0x8EA2AC2E; 0x08000808; 0xC5C1C405; 0x03131013; 0xCDC1CC0D; 0x86828406; 0x89B1B839;
  0xCFF3FC3F; 0x4D717C3D; 0xC1C1C001; 0x01313031; 0xC5F1F435; 0x8A82880A; 0x4A62682A; 0x81B1B031;
  0xC1D1D011; 0x00202020; 0xC7D3D417; 0x02020002; 0x02222022; 0x04000404; 0x48606828; 0x41717031;
  0x07030407; 0xCBD3D81B; 0x8D919C1D; 0x89919819; 0x41616021; 0x8EB2BC3E; 0xC6E2E426; 0x49515819;
  0xCDD1DC1D; 0x41515011; 0x80909010; 0xCCD0DC1C; 0x8A92981A; 0x83A3A023; 0x8BA3A82B; 0xC0D0D010;
  0x81818001; 0x0F030C0F; 0x47434407; 0x0A12181A; 0xC3E3E023; 0xCCE0EC2C; 0x8D818C0D; 0x8FB3BC3F;
  0x86929416; 0x4B73783B; 0x4C505C1C; 0x82A2A022; 0x81A1A021; 0x43636023; 0x03232023; 0x4D414C0D;
  0xC8C0C808; 0x8E929C1E; 0x8C909C1C; 0x0A32383A; 0x0C000C0C; 0x0E222C2E; 0x8AB2B83A; 0x4E626C2E;
  0x8F939C1F; 0x4A52581A; 0xC2F2F032; 0x82929012; 0xC3F3F033; 0x49414809; 0x48707838; 0xCCC0CC0C;
  0x05111415; 0xCBF3F83B; 0x40707030; 0x45717435; 0x4F737C3F; 0x05313435; 0x00101010; 0x03030003;
  0x44606424; 0x4D616C2D; 0xC6C2C406; 0x44707434; 0xC5D1D415; 0x84B0B434; 0xCAE2E82A; 0x09010809;
  0x46727436; 0x09111819; 0xCEF2FC3E; 0x40404000; 0x02121012; 0xC0E0E020; 0x8DB1BC3D; 0x05010405;
  0xCAF2F83A; 0x01010001; 0xC0F0F030; 0x0A22282A; 0x4E525C1E; 0x89A1A829; 0x46525416; 0x43434003;
  0x85818405; 0x04101414; 0x89818809; 0x8B93981B; 0x80B0B030; 0xC5E1E425; 0x48404808; 0x49717839;
  0x87939417; 0xCCF0FC3C; 0x0E121C1E; 0x82828002; 0x01212021; 0x8C808C0C; 0x0B13181B; 0x4F535C1F;
  0x47737437; 0x44505414; 0x82B2B032; 0x0D111C1D; 0x05212425; 0x4F434C0F; 0x00000000; 0x46424406;
  0xCDE1EC2D; 0x48505818; 0x42525012; 0xCBE3E82B; 0x4E727C3E; 0xCAD2D81A; 0xC9C1C809; 0xCDF1FC3D;
  0x00303030; 0x85919415; 0x45616425; 0x0C303C3C; 0x86B2B436; 0xC4E0E424; 0x8BB3B83B; 0x4C707C3C;
  0x0E020C0E; 0x40505010; 0x09313839; 0x06222426; 0x02323032; 0x84808404; 0x49616829; 0x83939013;
  0x07333437; 0xC7E3E427; 0x04202424; 0x84A0A424; 0xCBC3C80B; 0x43535013; 0x0A02080A; 0x87838407;
  0xC9D1D819; 0x4C404C0C; 0x83838003; 0x8F838C0F; 0xCEC2CC0E; 0x0B33383B; 0x4A42480A; 0x87B3B437
].

(** ** The G function and the round function *)

(** This is the optimized G function (Z) using the extended (SS) S-boxes *)
Definition g (x : Z) : Z :=
  let x3 := U32.shr (Z.land x 0xff000000) 24 in
  let x2 := U32.shr (Z.land x 0x00ff0000) 16 in
  let x1 := U32.shr (Z.land x 0x0000ff00) 8 in
  let x0 := Z.land x 0x000000ff in
  Z.lxor (Z.lxor (Z.lxor (at_ ss0 x0) (at_ ss1 x1)) (at_ ss2 x2)) (at_ ss3 x3).

(** the round function, in the nested form of the source *)
Definition f (k0 k1 r0 r1 : Z) : Z * Z :=
  let r0p :=
    U32.add
      (g (U32.add
            (g (U32.add (g (Z.lxor (Z.lxor r0 k0) (Z.lxor r1 k1)))
                        (Z.lxor r0 k0)))
            (g (Z.lxor (Z.lxor r0 k0) (Z.lxor r1 k1)))))
      (g (U32.add (g (Z.lxor (Z.lxor r0 k0) (Z.lxor r1 k1)))
                  (Z.lxor r0 k0))) in
  let r1p :=
    g (U32.add
         (g (U32.add (g (Z.lxor (Z.lxor r0 k0) (Z.lxor r1 k1)))
                     (Z.lxor r0 k0)))
         (g (Z.lxor (Z.lxor r0 k0) (Z.lxor r1 k1)))) in
  (r0p, r1p).

(** ** The cipher instance and its methods *)

(** A SEEDCipher is an instance of SEED encryption using a particular key *)
Record SEEDCipher := mkSEED {
  k0 : list Z;  (* [17]uint32, 1 extra to make indexing easier *)
  k1 : list Z   (* [17]uint32 *)
}.

(** [new(SEEDCipher)]: both arrays zeroed. *)
Definition new_SEEDCipher : SEEDCipher :=
  {| k0 := replicate 17 0; k1 := replicate 17 0 |}.

(** Modelled from the spec: the type [KeySizeError] is declared in another
    file of the package; it is the key-size error and carries the length
    it was given. *)
Inductive error : Type :=
| KeySizeError (n : nat).

(** How a call ends. *)
Inductive outcome (A : Type) : Type :=
| Normal (a : A)
| Panic.
Arguments Normal {A} a.
Arguments Panic {A}.

(** A computation on the receiver. *)
Definition M (A : Type) : Type := SEEDCipher -> outcome A * SEEDCipher.

Definition ret {A} (a : A) : M A := fun c => (Normal a, c).

Definition bind {A B} (m : M A) (k : A -> M B) : M B :=
  fun c =>
    match m c with
    | (Normal a, c') => k a c'
    | (Panic, c') => (Panic, c')
    end.

#[global] Instance M_ret : MRet M := @ret.
#[global] Instance M_bind : MBind M := fun A B k m => bind m k.

(** [c.k0[i]] and [c.k1[i]] as values. *)
Definition get_k0 (i : nat) : M Z :=
  fun c => match k0 c !! i with
           | Some v => (Normal v, c)
           | None => (Panic, c)
           end.

Definition get_k1 (i : nat) : M Z :=
  fun c => match k1 c !! i with
           | Some v => (Normal v, c)
           | None => (Panic, c)
           end.

(** [c.k0[i] = v] and [c.k1[i] = v]. *)
Definition set_k0 (i : nat) (v : Z) : M unit :=
  fun c => if (i <? length (k0 c))%nat
           then (Normal tt, {| k0 := <[i := v]> (k0 c); k1 := k1 c |})
           else (Panic, c).

Definition set_k1 (i : nat) (v : Z) : M unit :=
  fun c => if (i <? length (k1 c))%nat
           then (Normal tt, {| k0 := k0 c; k1 := <[i := v]> (k1 c) |})
           else (Panic, c).

(** A [for] loop whose counter takes the values of [idx] in order and whose
    body updates the local variables [s]. *)
Fixpoint for_each {S : Type} (idx : list nat) (body : nat -> S -> M S)
    (s : S) : M S :=
  match idx with
  | [] => ret s
  | i :: rest => s' ← body i s; for_each rest body s'
  end.

(** The local variables [l0, l1, r0, r1] of the block transforms, and
    [key0 .. key3] of the key schedule. *)
Definition quad : Type := (Z * Z * Z * Z)%type.

(** The four reads that open [Encrypt], [Decrypt] and [subkeys]: each
    variable starts at zero. *)
Definition read_quad (src : list byte) : quad :=
  let buf := src in
  let '(buf, w0) := binary.Read buf 0 in
  let '(buf, w1) := binary.Read buf 0 in
  let '(buf, w2) := binary.Read buf 0 in
  let '(_, w3) := binary.Read buf 0 in
  (w0, w1, w2, w3).

(** The four writes that close [Encrypt] and [Decrypt], on a fresh
    buffer; the result is [buf.Bytes()]. *)
Definition write_quad (s : quad) : list byte :=
  let '(w0, w1, w2, w3) := s in
  let buf := [] in
  let buf := binary.Write buf w0 in
  let buf := binary.Write buf w1 in
  let buf := binary.Write buf w2 in
  let buf := binary.Write buf w3 in
  buf.

(** Encrypt encrypts the 16-byte block in src and stores the resulting
    ciphertext in dst.  The value returned is the new contents of [dst]. *)
Definition Encrypt (dst src : list byte) : M (list byte) :=
  let '(l0, l1, r0, r1) := read_quad src in
  s ← for_each (seq 1 15)
         (fun i '((l0, l1, r0, r1) : quad) =>
            let t0 := r0 in
            let t1 := r1 in
            ki0 ← get_k0 i;
            ki1 ← get_k1 i;
            let '(f0, f1) := f ki0 ki1 r0 r1 in
            let r0 := Z.lxor l0 f0 in
            let r1 := Z.lxor l1 f1 in
            let l0 := t0 in
            let l1 := t1 in
            ret (l0, l1, r0, r1))
         (l0, l1, r0, r1);
  let '(l0, l1, r0, r1) := s in
  ki0 ← get_k0 16;
  ki1 ← get_k1 16;
  let '(f0, f1) := f ki0 ki1 r0 r1 in
  let l0 := Z.lxor l0 f0 in
  let l1 := Z.lxor l1 f1 in
  ret (copy dst (write_quad (l0, l1, r0, r1))).

(** Decrypt decrypts the 16-byte block in src and stores the resulting
    plaintext in dst.  The value returned is the new contents of [dst]. *)
Definition Decrypt (dst src : list byte) : M (list byte) :=
  let '(l0, l1, r0, r1) := read_quad src in
  ki0 ← get_k0 16;
  ki1 ← get_k1 16;
  let '(f0, f1) := f ki0 ki1 r0 r1 in
  let l0 := Z.lxor l0 f0 in
  let l1 := Z.lxor l1 f1 in
  s ← for_each (rev (seq 1 15))
         (fun i '((l0, l1, r0, r1) : quad) =>
            let t0 := l0 in
            let t1 := l1 in
            ki0 ← get_k0 i;
            ki1 ← get_k1 i;
            let '(f0, f1) := f ki0 ki1 t0 t1 in
            let l0 := Z.lxor r0 f0 in
            let l1 := Z.lxor r1 f1 in
            let r0 := t0 in
            let r1 := t1 in
            ret (l0, l1, r0, r1))
         (l0, l1, r0, r1);
  ret (copy dst (write_quad s)).

(** Reset zeros the key data so that it will no longer appear in the
    process' memory.  [range c.k0] runs over the 17 indices of the array. *)
Definition Reset : M unit :=
  for_each (seq 0 17)
    (fun i _ => set_k0 i 0 ;; set_k1 i 0)
    tt.

(** compute the round subkeys *)
Definition subkeys (key : list byte) : M unit :=
  let '(key0, key1, key2, key3) := read_quad key in
  for_each (seq 1 16)
    (fun i '((key0, key1, key2, key3) : quad) =>
       set_k0 i (g (U32.sub (U32.add key0 key2) (nth i kc 0))) ;;
       set_k1 i (g (U32.add (U32.sub key1 key3) (nth i kc 0))) ;;
       if (Nat.land i 1 =? 1)%nat
       then let '(key0, key1) := rotrbyte32 key0 key1 in
            ret (key0, key1, key2, key3)
       else let '(key2, key3) := rotlbyte32 key2 key3 in
            ret (key0, key1, key2, key3))
    (key0, key1, key2, key3) ;;
  ret tt.

(** NewSEED creates and returns a new SEEDCipher.  The key argument should
    be 16 bytes.  The result is Go's pair (instance or nil, error or nil). *)
Definition NewSEED (key : list byte)
    : outcome (option SEEDCipher * option error) :=
  let c := new_SEEDCipher in
  let klen := length key in
  if negb (klen =? 16)%nat
  then Normal (None, Some (KeySizeError (length key)))
  else match subkeys key c with
       | (Normal _, c) => Normal (Some c, None)
       | (Panic, _) => Panic
       end.

(** BlockSize returns the block size. *)
Definition BlockSize : nat := 16.


(** ** What the loops compute *)

(** The arrays of an instance have the length their type gives them. *)
Definition wf (c : SEEDCipher) : Prop :=
  length (k0 c) = 17%nat /\ length (k1 c) = 17%nat.

(** The effect of one pass of the loop of [Encrypt] on [l0, l1, r0, r1]. *)
Definition enc_round (c : SEEDCipher) (s : quad) (i : nat) : quad :=
  let '(l0, l1, r0, r1) := s in
  let '(f0, f1) := f (nth i (k0 c) 0) (nth i (k1 c) 0) r0 r1 in
  (r0, r1, Z.lxor l0 f0, Z.lxor l1 f1).

(** The effect of one pass of the loop of [Decrypt]. *)
Definition dec_round (c : SEEDCipher) (s : quad) (i : nat) : quad :=
  let '(l0, l1, r0, r1) := s in
  let '(f0, f1) := f (nth i (k0 c) 0) (nth i (k1 c) 0) l0 l1 in
  (Z.lxor r0 f0, Z.lxor r1 f1, l0, l1).

(** The statements with round key 16, the same in both directions. *)
Definition last_round (c : SEEDCipher) (s : quad) : quad :=
  let '(l0, l1, r0, r1) := s in
  let '(f0, f1) := f (nth 16 (k0 c) 0) (nth 16 (k1 c) 0) r0 r1 in
  (Z.lxor l0 f0, Z.lxor l1 f1, r0, r1).

Definition enc_words (c : SEEDCipher) (s : quad) : quad :=
  last_round c (fold_left (enc_round c) (seq 1 15) s).

Definition dec_words (c : SEEDCipher) (s : quad) : quad :=
  fold_left (dec_round c) (rev (seq 1 15)) (last_round c s).

Definition quad_ok (s : quad) : Prop :=
  let '(w0, w1, w2, w3) := s in
  U32.ok w0 /\ U32.ok w1 /\ U32.ok w2 /\ U32.ok w3.

(** The effect of one pass of the loop of [subkeys] on [key0 .. key3] and
    on the receiver. *)
Definition ks_round (st : quad * SEEDCipher) (i : nat) : quad * SEEDCipher :=
  let '((key0, key1, key2, key3), c) := st in
  let c := {| k0 := <[i := g (U32.sub (U32.add key0 key2) (nth i kc 0))]> (k0 c);
              k1 := k1 c |} in
  let c := {| k0 := k0 c;
              k1 := <[i := g (U32.add (U32.sub key1 key3) (nth i kc 0))]> (k1 c) |} in
  if (Nat.land i 1 =? 1)%nat
  then let '(key0, key1) := rotrbyte32 key0 key1 in ((key0, key1, key2, key3), c)
  else let '(key2, key3) := rotlbyte32 key2 key3 in ((key0, key1, key2, key3), c).

(** The effect of one pass of the loop of [Reset]. *)
Definition reset_round (st : unit * SEEDCipher) (i : nat) : unit * SEEDCipher :=
  let c := snd st in
  (tt, {| k0 := <[i := 0]> (k0 c); k1 := <[i := 0]> (k1 c) |}).

(** The range check of [U32.ok], as a test. *)
Definition okb (x : Z) : bool := (0 <=? x) && (x <? 2 ^ 32).

(** A computation that never writes the receiver. *)
Definition readonly {A} (m : M A) : Prop := forall c, snd (m c) = c.


(** ** The specification's wording

    The definitions of this module are written from the text of the
    specification; the theorems below compare them with the code. *)

Module Spec.

(** The 32-bit big-endian word number [j] of a byte buffer. *)
Definition word_at (bs : list byte) (j : nat) : Z :=
  byte.unsigned (nth (4 * j) bs Byte.x00) * 2 ^ 24
  + byte.unsigned (nth (4 * j + 1) bs Byte.x00) * 2 ^ 16
  + byte.unsigned (nth (4 * j + 2) bs Byte.x00) * 2 ^ 8
  + byte.unsigned (nth (4 * j + 3) bs Byte.x00).

(** A buffer of 16 bytes as four words, in buffer order. *)
Definition unpack (bs : list byte) : quad :=
  (word_at bs 0, word_at bs 1, word_at bs 2, word_at bs 3).

(** The four bytes of a word, most significant first. *)
Definition word_bytes (w : Z) : list byte :=
  [ byte.of_Z (w / 2 ^ 24); byte.of_Z (w / 2 ^ 16);
    byte.of_Z (w / 2 ^ 8); byte.of_Z w ].

Definition pack (s : quad) : list byte :=
  let '(w0, w1, w2, w3) := s in
  word_bytes w0 ++ word_bytes w1 ++ word_bytes w2 ++ word_bytes w3.

(** The round function in stages: [a], [b], [c], then [g1], [g2], [g3]. *)
Definition F (ka kb r0 r1 : Z) : Z * Z :=
  let a := Z.lxor r0 ka in
  let b := Z.lxor r1 kb in
  let c := Z.lxor a b in
  let g1 := g c in
  let g2 := g ((g1 + a) mod 2 ^ 32) in
  let g3 := g ((g2 + g1) mod 2 ^ 32) in
  ((g3 + g2) mod 2 ^ 32, g3).

(** The state (L0, L1, R0, R1) after rounds 1 .. [n] of encryption with
    the round keys [K0], [K1]. *)
Fixpoint rounds (K0 K1 : nat -> Z) (s : quad) (n : nat) : quad :=
  match n with
  | O => s
  | S m =>
      let '(L0, L1, R0, R1) := rounds K0 K1 s m in
      let '(f0, f1) := f (K0 (S m)) (K1 (S m)) R0 R1 in
      (R0, R1, Z.lxor L0 f0, Z.lxor L1 f1)
  end.

(** The 64-bit value x0‖x1 and its two halves. *)
Definition concat (x0 x1 : Z) : Z := x0 * 2 ^ 32 + x1.
Definition hi (x : Z) : Z := x / 2 ^ 32.
Definition lo (x : Z) : Z := x mod 2 ^ 32.

(** Rotation of a 64-bit value by [n] bits, 0 < n < 64. *)
Definition rotl64 (x n : Z) : Z :=
  (x * 2 ^ n) mod 2 ^ 64 + x / 2 ^ (64 - n).
Definition rotr64 (x n : Z) : Z :=
  x / 2 ^ n + (x * 2 ^ (64 - n)) mod 2 ^ 64.

(** The key words (key0, key1, key2, key3) after the rotations of rounds
    1 .. [n] of the key schedule, the words round [n + 1] uses: after an
    odd round the 64-bit value key0‖key1 is rotated right by 8 bits,
    after an even round key2‖key3 is rotated left by 8 bits. *)
Fixpoint key_words (key : quad) (n : nat) : quad :=
  match n with
  | O => key
  | S m =>
      let '(key0, key1, key2, key3) := key_words key m in
      if Nat.odd (S m)
      then let x := rotr64 (concat key0 key1) 8 in (hi x, lo x, key2, key3)
      else let x := rotl64 (concat key2 key3) 8 in (key0, key1, hi x, lo x)
  end.

End Spec.

(** The local variables [key0 .. key3] of [subkeys] after [n] passes of
    its loop. *)
Fixpoint ks_words (key : quad) (n : nat) : quad :=
  match n with
  | O => key
  | S m =>
      let '(key0, key1, key2, key3) := ks_words key m in
      if Nat.odd (S m)
      then let '(key0, key1) := rotrbyte32 key0 key1 in (key0, key1, key2, key3)
      else let '(key2, key3) := rotlbyte32 key2 key3 in (key0, key1, key2, key3)
  end.

(** What [subkeys] has stored at index [i] once round [i] has run. *)
Definition scheduled (key : quad) (c : SEEDCipher) (i : nat) : Prop :=
  let '(key0, key1, key2, key3) := ks_words key (i - 1) in
  nth i (k0 c) 0 = g ((key0 + key2 - nth i kc 0) mod 2 ^ 32) /\
  nth i (k1 c) 0 = g ((key1 - key3 + nth i kc 0) mod 2 ^ 32).


(** ** Notions the further properties are stated with *)

Module Extra.

(** The two halves of the block exchanged: (L, R) becomes (R, L). *)
Definition swap_halves (s : quad) : quad :=
  let '(l0, l1, r0, r1) := s in (r0, r1, l0, l1).

(** An instance whose round keys 1 .. 16 are those of [c] in the opposite
    order; entry 0 is kept. *)
Definition reverse_keys (c : SEEDCipher) : SEEDCipher :=
  {| k0 := nth 0 (k0 c) 0 :: rev (drop 1 (k0 c));
     k1 := nth 0 (k1 c) 0 :: rev (drop 1 (k1 c)) |}.

(** Two instances with the same sixteen round-key pairs. *)
Definition same_round_keys (c c' : SEEDCipher) : Prop :=
  forall i, (1 <= i <= 16)%nat ->
    nth i (k0 c) 0 = nth i (k0 c') 0 /\ nth i (k1 c) 0 = nth i (k1 c') 0.

(** G by the bytes of its argument, least significant first. *)
Definition G (x : Z) : Z :=
  Z.lxor (Z.lxor (Z.lxor (at_ ss0 (x mod 2 ^ 8))
                         (at_ ss1 ((x / 2 ^ 8) mod 2 ^ 8)))
                 (at_ ss2 ((x / 2 ^ 16) mod 2 ^ 8)))
         (at_ ss3 ((x / 2 ^ 24) mod 2 ^ 8)).

(** Rotation of a 32-bit word to the left by [n] bits, 0 < n < 32. *)
Definition rotl32 (x n : Z) : Z :=
  (x * 2 ^ n) mod 2 ^ 32 + x / 2 ^ (32 - n).

(** The byte an extended S-box entry is made of: the bitwise or of its
    four bytes. *)
Definition sbox_byte (w : Z) : Z :=
  Z.lor (Z.lor (w mod 2 ^ 8) ((w / 2 ^ 8) mod 2 ^ 8))
        (Z.lor ((w / 2 ^ 16) mod 2 ^ 8) ((w / 2 ^ 24) mod 2 ^ 8)).

(** The state (L0, L1, R0, R1) of decryption once rounds 15, 14, ..,
    16 - [n] have been undone, with the round keys [K0], [K1]. *)
Fixpoint unrounds (K0 K1 : nat -> Z) (s : quad) (n : nat) : quad :=
  match n with
  | O => s
  | S m =>
      let '(L0, L1, R0, R1) := unrounds K0 K1 s m in
      let '(f0, f1) := f (K0 (15 - m)%nat) (K1 (15 - m)%nat) L0 L1 in
      (Z.lxor R0 f0, Z.lxor R1 f1, L0, L1)
  end.

(** Tests over the tables, evaluated in the proofs. *)
Definition rot16_pairs (lo hi : list Z) : bool :=
  forallb (fun p => rotl32 (fst p) 16 =? snd p) (combine lo hi).

Definition masked_bytes (mask : Z) (tbl : list Z) : bool :=
  forallb (fun w => w =? Z.land (sbox_byte w * 0x01010101) mask) tbl.

Definition hits_every_byte (tbl : list Z) : bool :=
  let bs := map sbox_byte tbl in
  forallb (fun b => existsb (Z.eqb (Z.of_nat b)) bs) (seq 0 256).

Fixpoint all_distinct (l : list Z) : bool :=
  match l with
  | [] => true
  | x :: rest => negb (existsb (Z.eqb x) rest) && all_distinct rest
  end.

Definition distinct_bytes (tbl : list Z) : bool :=
  all_distinct (map sbox_byte tbl).

Definition rotl1_steps (tbl : list Z) : bool :=
  forallb (fun i => nth (S i) tbl 0 =? rotl32 (nth i tbl 0) 1) (seq 1 15).

End Extra.

(** * Properties *)

(** ** Words stay words *)

Section WordRange.

Lemma wrap_ok z : U32.ok (U32.wrap z).
Proof. unfold U32.ok, U32.wrap. apply Z.mod_pos_bound. lia. Qed.

Lemma add_ok x y : U32.ok (U32.add x y).
Proof. apply wrap_ok. Qed.

Lemma sub_ok x y : U32.ok (U32.sub x y).
Proof. apply wrap_ok. Qed.

Lemma shl_ok x n : U32.ok (U32.shl x n).
Proof. apply wrap_ok. Qed.

Lemma ok_iff_land x : U32.ok x <-> Z.land x (Z.ones 32) = x.
Proof.
  rewrite Z.land_ones by lia. unfold U32.ok. split; intros H.
  - apply Z.mod_small; exact H.
  - rewrite <- H. apply Z.mod_pos_bound. lia.
Qed.

Lemma lxor_ok x y : U32.ok x -> U32.ok y -> U32.ok (Z.lxor x y).
Proof.
  rewrite !ok_iff_land. intros Hx Hy.
  rewrite <- Hx, <- Hy at 2. Z.bitblast.
Qed.

Lemma lor_ok x y : U32.ok x -> U32.ok y -> U32.ok (Z.lor x y).
Proof.
  rewrite !ok_iff_land. intros Hx Hy.
  rewrite <- Hx, <- Hy at 2. Z.bitblast.
Qed.

Lemma land_ok_l x y : U32.ok x -> U32.ok (Z.land x y).
Proof.
  rewrite !ok_iff_land. intros Hx.
  rewrite <- Hx at 2. Z.bitblast.
Qed.

Lemma shr_ok x n : 0 <= n -> U32.ok x -> U32.ok (U32.shr x n).
Proof.
  unfold U32.ok, U32.shr. intros Hn [H0 H1].
  rewrite Z.shiftr_div_pow2 by exact Hn. split.
  - apply Z.div_pos; lia.
  - apply Z.le_lt_trans with x; [|exact H1].
    apply Z.div_le_upper_bound; [lia|]. nia.
Qed.

End WordRange.

(** ** Big-endian words and bytes *)

Section BigEndian.

Lemma byte_land b : Z.land (byte.unsigned b) (Z.ones 8) = byte.unsigned b.
Proof.
  rewrite Z.land_ones by lia. apply Z.mod_small, byte.unsigned_range.
Qed.

Lemma byte_of_Z_land z b :
  Z.land z (Z.ones 8) = byte.unsigned b -> byte.of_Z z = b.
Proof.
  intros H. apply byte.unsigned_inj.
  rewrite byte.unsigned_of_Z. unfold byte.wrap.
  rewrite <- Z.land_ones by lia. exact H.
Qed.

Lemma Uint32_ok b0 b1 b2 b3 : U32.ok (binary.Uint32 b0 b1 b2 b3).
Proof.
  apply ok_iff_land. unfold binary.Uint32.
  rewrite <- (byte_land b0), <- (byte_land b1), <- (byte_land b2),
    <- (byte_land b3).
  Z.bitblast.
Qed.

Lemma PutUint32_Uint32 b0 b1 b2 b3 :
  binary.PutUint32 (binary.Uint32 b0 b1 b2 b3) = [b0; b1; b2; b3].
Proof.
  unfold binary.PutUint32, binary.Uint32.
  repeat f_equal; apply byte_of_Z_land.
  all: rewrite <- (byte_land b0), <- (byte_land b1), <- (byte_land b2),
         <- (byte_land b3).
  all: Z.bitblast.
Qed.

Lemma Uint32_PutUint32 v :
  U32.ok v ->
  binary.Uint32 (byte.of_Z (Z.shiftr v 24)) (byte.of_Z (Z.shiftr v 16))
                (byte.of_Z (Z.shiftr v 8)) (byte.of_Z v) = v.
Proof.
  intros Hv. apply ok_iff_land in Hv.
  unfold binary.Uint32. rewrite !byte.unsigned_of_Z. unfold byte.wrap.
  rewrite <- !Z.land_ones by lia.
  transitivity (Z.land v (Z.ones 32)); [|exact Hv]. Z.bitblast.
Qed.

Lemma length_write_quad s : length (write_quad s) = 16%nat.
Proof. destruct s as [[[w0 w1] w2] w3]. reflexivity. Qed.

Lemma read_write_quad w0 w1 w2 w3 rest :
  U32.ok w0 -> U32.ok w1 -> U32.ok w2 -> U32.ok w3 ->
  read_quad (write_quad (w0, w1, w2, w3) ++ rest) = (w0, w1, w2, w3).
Proof.
  intros H0 H1 H2 H3. unfold read_quad, write_quad, binary.Write, binary.Read.
  cbn [app binary.PutUint32].
  rewrite !Uint32_PutUint32 by assumption. reflexivity.
Qed.

Lemma write_read_quad (src : list byte) :
  (16 <= length src)%nat ->
  write_quad (read_quad src) = take 16 src.
Proof.
  intros Hlen.
  do 16 (destruct src as [|? src]; [cbn in Hlen; lia|]).
  unfold read_quad, write_quad, binary.Write, binary.Read.
  rewrite !PutUint32_Uint32. reflexivity.
Qed.

Lemma read_quad_ok src :
  let '(w0, w1, w2, w3) := read_quad src in
  U32.ok w0 /\ U32.ok w1 /\ U32.ok w2 /\ U32.ok w3.
Proof.
  assert (Hz : U32.ok 0) by (unfold U32.ok; lia).
  unfold read_quad, binary.Read.
  repeat (destruct src as [|? src]; cbn; auto using Uint32_ok).
Qed.

Lemma read_quad_take (src : list byte) :
  (16 <= length src)%nat -> read_quad (take 16 src) = read_quad src.
Proof.
  intros Hlen.
  do 16 (destruct src as [|? src]; [cbn in Hlen; lia|]).
  reflexivity.
Qed.

End BigEndian.

(** ** The tables, G and F *)

Section Tables.

Lemma okb_ok x : okb x = true -> U32.ok x.
Proof. unfold okb, U32.ok. lia. Qed.

Lemma table_ok (tbl : list Z) i :
  forallb okb tbl = true -> U32.ok (at_ tbl i).
Proof.
  intros H. unfold at_.
  destruct (nth_in_or_default (Z.to_nat i) tbl 0) as [Hin | ->].
  - apply okb_ok. rewrite forallb_forall in H. apply H, Hin.
  - unfold U32.ok. lia.
Qed.

Lemma ss0_ok i : U32.ok (at_ ss0 i).
Proof. apply table_ok. vm_compute. reflexivity. Qed.
Lemma ss1_ok i : U32.ok (at_ ss1 i).
Proof. apply table_ok. vm_compute. reflexivity. Qed.
Lemma ss2_ok i : U32.ok (at_ ss2 i).
Proof. apply table_ok. vm_compute. reflexivity. Qed.
Lemma ss3_ok i : U32.ok (at_ ss3 i).
Proof. apply table_ok. vm_compute. reflexivity. Qed.

Lemma g_ok x : U32.ok (g x).
Proof.
  unfold g. cbv zeta.
  auto using lxor_ok, ss0_ok, ss1_ok, ss2_ok, ss3_ok.
Qed.

(** The four indices [g] computes are bytes, and each table has 256
    entries: no lookup of [g] leaves its table, for any argument. *)
Lemma g_indices_in_range x :
  let x3 := U32.shr (Z.land x 0xff000000) 24 in
  let x2 := U32.shr (Z.land x 0x00ff0000) 16 in
  let x1 := U32.shr (Z.land x 0x0000ff00) 8 in
  let x0 := Z.land x 0x000000ff in
  (Z.to_nat x0 < length ss0 /\ Z.to_nat x1 < length ss1 /\
   Z.to_nat x2 < length ss2 /\ Z.to_nat x3 < length ss3)%nat.
Proof.
  cbv zeta. unfold U32.shr. rewrite !Z.shiftr_land.
  change (Z.shiftr 0xff000000 24) with (Z.ones 8).
  change (Z.shiftr 0x00ff0000 16) with (Z.ones 8).
  change (Z.shiftr 0x0000ff00 8) with (Z.ones 8).
  change 0x000000ff with (Z.ones 8).
  rewrite !Z.land_ones by lia.
  change (length ss0) with 256%nat. change (length ss1) with 256%nat.
  change (length ss2) with 256%nat. change (length ss3) with 256%nat.
  pose proof (Z.mod_pos_bound x (2 ^ 8) ltac:(lia)).
  pose proof (Z.mod_pos_bound (Z.shiftr x 8) (2 ^ 8) ltac:(lia)).
  pose proof (Z.mod_pos_bound (Z.shiftr x 16) (2 ^ 8) ltac:(lia)).
  pose proof (Z.mod_pos_bound (Z.shiftr x 24) (2 ^ 8) ltac:(lia)).
  lia.
Qed.

Lemma f_ok ka kb r0 r1 : U32.ok (fst (f ka kb r0 r1)) /\ U32.ok (snd (f ka kb r0 r1)).
Proof. unfold f. cbn [fst snd]. split; [apply add_ok | apply g_ok]. Qed.

End Tables.

#[global] Opaque g.

(** ** Running the methods *)

Section Running.

Lemma bind_run {A B} (m : M A) (k : A -> M B) c a c' :
  m c = (Normal a, c') -> (m ≫= k) c = k a c'.
Proof. intros H. unfold mbind, M_bind, bind. rewrite H. reflexivity. Qed.

Lemma get_k0_run c i :
  wf c -> (i < 17)%nat -> get_k0 i c = (Normal (nth i (k0 c) 0), c).
Proof.
  intros [H0 _] Hi. unfold get_k0.
  destruct (lookup_lt_is_Some_2 (k0 c) i) as [v Hv]; [lia|].
  rewrite Hv. erewrite nth_lookup_Some; eauto.
Qed.

Lemma get_k1_run c i :
  wf c -> (i < 17)%nat -> get_k1 i c = (Normal (nth i (k1 c) 0), c).
Proof.
  intros [_ H1] Hi. unfold get_k1.
  destruct (lookup_lt_is_Some_2 (k1 c) i) as [v Hv]; [lia|].
  rewrite Hv. erewrite nth_lookup_Some; eauto.
Qed.

(** A loop whose body returns normally and leaves the receiver alone is
    a fold over the values of its counter. *)
Lemma for_each_pure {S} (body : nat -> S -> M S) (step : S -> nat -> S) c :
  forall idx s,
    (forall i s', In i idx -> body i s' c = (Normal (step s' i), c)) ->
    for_each idx body s c = (Normal (fold_left step idx s), c).
Proof.
  induction idx as [|i idx IH]; intros s Hbody; cbn [for_each fold_left].
  - reflexivity.
  - erewrite bind_run by (apply Hbody; left; reflexivity).
    apply IH. intros j s' Hj. apply Hbody. right. exact Hj.
Qed.

Lemma Encrypt_run c dst src :
  wf c ->
  Encrypt dst src c
  = (Normal (copy dst (write_quad (enc_words c (read_quad src)))), c).
Proof.
  intros Hwf. unfold Encrypt, enc_words.
  destruct (read_quad src) as [[[l0 l1] r0] r1].
  erewrite bind_run; cycle 1.
  { apply (for_each_pure _ (enc_round c)). intros i [[[a b] d] e] Hi.
    apply in_seq in Hi.
    erewrite bind_run by (apply get_k0_run; [exact Hwf | lia]).
    erewrite bind_run by (apply get_k1_run; [exact Hwf | lia]).
    unfold enc_round.
    destruct (f _ _ d e) as [f0 f1]. reflexivity. }
  destruct (fold_left _ _ _) as [[[a b] d] e].
  erewrite bind_run by (apply get_k0_run; [exact Hwf | lia]).
  erewrite bind_run by (apply get_k1_run; [exact Hwf | lia]).
  unfold last_round. destruct (f _ _ d e) as [f0 f1]. reflexivity.
Qed.

Lemma Decrypt_run c dst src :
  wf c ->
  Decrypt dst src c
  = (Normal (copy dst (write_quad (dec_words c (read_quad src)))), c).
Proof.
  intros Hwf. unfold Decrypt, dec_words.
  destruct (read_quad src) as [[[l0 l1] r0] r1].
  erewrite bind_run by (apply get_k0_run; [exact Hwf | lia]).
  erewrite bind_run by (apply get_k1_run; [exact Hwf | lia]).
  unfold last_round. destruct (f _ _ r0 r1) as [f0 f1].
  erewrite bind_run; cycle 1.
  { apply (for_each_pure _ (dec_round c)). intros i [[[a b] d] e] Hi.
    apply in_rev, in_seq in Hi.
    erewrite bind_run by (apply get_k0_run; [exact Hwf | lia]).
    erewrite bind_run by (apply get_k1_run; [exact Hwf | lia]).
    unfold dec_round.
    destruct (f _ _ a b) as [g0 g1]. reflexivity. }
  reflexivity.
Qed.

Lemma set_k0_run c i v :
  wf c -> (i < 17)%nat ->
  set_k0 i v c = (Normal tt, {| k0 := <[i := v]> (k0 c); k1 := k1 c |}).
Proof.
  intros [H0 _] Hi. unfold set_k0.
  destruct (Nat.ltb_spec i (length (k0 c))); [reflexivity | lia].
Qed.

Lemma set_k1_run c i v :
  wf c -> (i < 17)%nat ->
  set_k1 i v c = (Normal tt, {| k0 := k0 c; k1 := <[i := v]> (k1 c) |}).
Proof.
  intros [_ H1] Hi. unfold set_k1.
  destruct (Nat.ltb_spec i (length (k1 c))); [reflexivity | lia].
Qed.

Lemma wf_set c i v w :
  wf c -> wf {| k0 := <[i := v]> (k0 c); k1 := <[i := w]> (k1 c) |}.
Proof. intros [H0 H1]. split; cbn; rewrite length_insert; assumption. Qed.

Lemma wf_new : wf new_SEEDCipher.
Proof. split; reflexivity. Qed.

(** A loop whose body returns normally and keeps the arrays at their
    length is a fold over the values of its counter, on the local
    variables and the receiver together. *)
Lemma for_each_wf {S} (body : nat -> S -> M S)
    (step : S * SEEDCipher -> nat -> S * SEEDCipher) :
  forall idx s c,
    (forall i s' c', In i idx -> wf c' ->
       body i s' c' = (Normal (fst (step (s', c') i)), snd (step (s', c') i))
       /\ wf (snd (step (s', c') i))) ->
    wf c ->
    for_each idx body s c
    = (Normal (fst (fold_left step idx (s, c))),
       snd (fold_left step idx (s, c)))
    /\ wf (snd (fold_left step idx (s, c))).
Proof.
  induction idx as [|i idx IH]; intros s c Hbody Hwf; cbn [for_each fold_left].
  - split; [reflexivity | exact Hwf].
  - destruct (Hbody i s c) as [Hrun Hwf']; [left; reflexivity | exact Hwf |].
    erewrite bind_run by exact Hrun.
    destruct (step (s, c) i) as [s1 c1]. cbn [fst snd] in *.
    apply IH; [|exact Hwf'].
    intros j s' c' Hj. apply Hbody. right. exact Hj.
Qed.

Lemma ks_round_run i s c :
  (i < 17)%nat -> wf c ->
  (let '(key0, key1, key2, key3) := s in
   set_k0 i (g (U32.sub (U32.add key0 key2) (nth i kc 0)));;
   set_k1 i (g (U32.add (U32.sub key1 key3) (nth i kc 0)));;
   if (Nat.land i 1 =? 1)%nat
   then let '(key0, key1) := rotrbyte32 key0 key1 in
        mret (key0, key1, key2, key3)
   else let '(key2, key3) := rotlbyte32 key2 key3 in
        mret (key0, key1, key2, key3)) c
  = (Normal (fst (ks_round (s, c) i)), snd (ks_round (s, c) i))
  /\ wf (snd (ks_round (s, c) i)).
Proof.
  intros Hi Hwf. destruct s as [[[key0 key1] key2] key3].
  erewrite bind_run by (apply set_k0_run; [exact Hwf | exact Hi]).
  erewrite bind_run; cycle 1.
  { apply set_k1_run; [|exact Hi].
    destruct Hwf as [H0 H1]. split; cbn; [rewrite length_insert|]; assumption. }
  unfold ks_round. cbn [k0 k1].
  destruct (Nat.land i 1 =? 1)%nat.
  - destruct (rotrbyte32 key0 key1) as [a b]. cbn [fst snd].
    split; [reflexivity | apply wf_set, Hwf].
  - destruct (rotlbyte32 key2 key3) as [a b]. cbn [fst snd].
    split; [reflexivity | apply wf_set, Hwf].
Qed.

Lemma subkeys_run key c :
  wf c ->
  subkeys key c
  = (Normal tt, snd (fold_left ks_round (seq 1 16) (read_quad key, c)))
  /\ wf (snd (fold_left ks_round (seq 1 16) (read_quad key, c))).
Proof.
  intros Hwf. unfold subkeys.
  destruct (read_quad key) as [[[key0 key1] key2] key3] eqn:Hrd.
  destruct (for_each_wf
              (fun (i : nat) '((key0, key1, key2, key3) : quad) =>
                 set_k0 i (g (U32.sub (U32.add key0 key2) (nth i kc 0)));;
                 set_k1 i (g (U32.add (U32.sub key1 key3) (nth i kc 0)));;
                 if (Nat.land i 1 =? 1)%nat
                 then let '(key0, key1) := rotrbyte32 key0 key1 in
                      mret (key0, key1, key2, key3)
                 else let '(key2, key3) := rotlbyte32 key2 key3 in
                      mret (key0, key1, key2, key3))
              ks_round (seq 1 16) (key0, key1, key2, key3) c) as [Hrun Hwf'].
  { intros i s' c' Hi Hc'. apply in_seq in Hi. apply ks_round_run; [lia | exact Hc']. }
  { exact Hwf. }
  split; [|exact Hwf'].
  erewrite bind_run by exact Hrun. reflexivity.
Qed.

Lemma Reset_run c :
  wf c ->
  Reset c = (Normal tt, snd (fold_left reset_round (seq 0 17) (tt, c)))
  /\ wf (snd (fold_left reset_round (seq 0 17) (tt, c))).
Proof.
  intros Hwf. unfold Reset.
  destruct (for_each_wf (fun (i : nat) (_ : unit) => set_k0 i 0;; set_k1 i 0)
              reset_round (seq 0 17) tt c) as [Hrun Hwf'].
  { intros i [] c' Hi Hc'. apply in_seq in Hi. unfold reset_round. cbn [fst snd].
    split; [|apply wf_set, Hc'].
    erewrite bind_run by (apply set_k0_run; [exact Hc' | lia]).
    rewrite set_k1_run; [reflexivity | | lia].
    destruct Hc' as [H0 H1]. split; cbn; [rewrite length_insert|]; assumption. }
  { exact Hwf. }
  split; [|exact Hwf'].
  rewrite Hrun. destruct (fst _). reflexivity.
Qed.

End Running.

(** ** The rounds undo each other *)

Section Feistel.

Lemma lxor_cancel a b : Z.lxor (Z.lxor a b) b = a.
Proof. rewrite Z.lxor_assoc, Z.lxor_nilpotent, Z.lxor_0_r. reflexivity. Qed.

Lemma dec_enc_round c s i : dec_round c (enc_round c s i) i = s.
Proof.
  destruct s as [[[l0 l1] r0] r1]. unfold enc_round.
  destruct (f _ _ r0 r1) as [f0 f1] eqn:Hf.
  unfold dec_round. rewrite Hf, !lxor_cancel. reflexivity.
Qed.

Lemma last_round_twice c s : last_round c (last_round c s) = s.
Proof.
  destruct s as [[[l0 l1] r0] r1]. unfold last_round.
  destruct (f _ _ r0 r1) as [f0 f1] eqn:Hf.
  rewrite Hf, !lxor_cancel. reflexivity.
Qed.

Lemma dec_enc_rounds c idx :
  forall s, fold_left (dec_round c) (rev idx) (fold_left (enc_round c) idx s) = s.
Proof.
  induction idx as [|i idx IH]; intros s; cbn [rev fold_left].
  - reflexivity.
  - rewrite fold_left_app, IH. cbn [fold_left]. apply dec_enc_round.
Qed.

Lemma dec_enc_words c s : dec_words c (enc_words c s) = s.
Proof.
  unfold dec_words, enc_words. rewrite last_round_twice. apply dec_enc_rounds.
Qed.

Lemma enc_round_ok c s i : quad_ok s -> quad_ok (enc_round c s i).
Proof.
  destruct s as [[[l0 l1] r0] r1]. intros (Hl0 & Hl1 & Hr0 & Hr1).
  unfold enc_round.
  pose proof (f_ok (nth i (k0 c) 0) (nth i (k1 c) 0) r0 r1) as [Hf0 Hf1].
  destruct (f _ _ r0 r1) as [f0 f1]. cbn [fst snd] in *.
  refine (conj _ (conj _ (conj _ _))); auto using lxor_ok.
Qed.

Lemma dec_round_ok c s i : quad_ok s -> quad_ok (dec_round c s i).
Proof.
  destruct s as [[[l0 l1] r0] r1]. intros (Hl0 & Hl1 & Hr0 & Hr1).
  unfold dec_round.
  pose proof (f_ok (nth i (k0 c) 0) (nth i (k1 c) 0) l0 l1) as [Hf0 Hf1].
  destruct (f _ _ l0 l1) as [f0 f1]. cbn [fst snd] in *.
  refine (conj _ (conj _ (conj _ _))); auto using lxor_ok.
Qed.

Lemma last_round_ok c s : quad_ok s -> quad_ok (last_round c s).
Proof.
  destruct s as [[[l0 l1] r0] r1]. intros (Hl0 & Hl1 & Hr0 & Hr1).
  unfold last_round.
  pose proof (f_ok (nth 16 (k0 c) 0) (nth 16 (k1 c) 0) r0 r1) as [Hf0 Hf1].
  destruct (f _ _ r0 r1) as [f0 f1]. cbn [fst snd] in *.
  refine (conj _ (conj _ (conj _ _))); auto using lxor_ok.
Qed.

Lemma fold_left_ok (step : quad -> nat -> quad) idx :
  (forall s i, quad_ok s -> quad_ok (step s i)) ->
  forall s, quad_ok s -> quad_ok (fold_left step idx s).
Proof.
  intros Hstep. induction idx as [|i idx IH]; intros s Hs; cbn [fold_left].
  - exact Hs.
  - apply IH, Hstep, Hs.
Qed.

Lemma enc_words_ok c s : quad_ok s -> quad_ok (enc_words c s).
Proof.
  intros Hs. apply last_round_ok, fold_left_ok; [apply enc_round_ok | exact Hs].
Qed.

Lemma dec_words_ok c s : quad_ok s -> quad_ok (dec_words c s).
Proof.
  intros Hs. apply fold_left_ok; [apply dec_round_ok | apply last_round_ok, Hs].
Qed.

Lemma read_written s rest : quad_ok s -> read_quad (write_quad s ++ rest) = s.
Proof.
  destruct s as [[[w0 w1] w2] w3]. intros (H0 & H1 & H2 & H3).
  apply read_write_quad; assumption.
Qed.

Lemma copy_16 dst (src : list byte) :
  length src = 16%nat -> (16 <= length dst)%nat ->
  copy dst src = src ++ drop 16 dst.
Proof.
  intros Hs Hd. unfold copy. rewrite Hs, Nat.min_r by exact Hd.
  rewrite firstn_all2 by lia. reflexivity.
Qed.

Lemma NewSEED_run key :
  length key = 16%nat ->
  NewSEED key
  = Normal (Some (snd (fold_left ks_round (seq 1 16)
                         (read_quad key, new_SEEDCipher))), None)
  /\ wf (snd (fold_left ks_round (seq 1 16) (read_quad key, new_SEEDCipher))).
Proof.
  intros Hlen. unfold NewSEED. rewrite Hlen. cbn [Nat.eqb negb].
  destruct (subkeys_run key new_SEEDCipher wf_new) as [Hrun Hwf].
  rewrite Hrun. split; [reflexivity | exact Hwf].
Qed.

End Feistel.

(** C1. For every 16-byte key and every 16-byte block, the instance made
    from the key decrypts what it encrypts back to the block: [NewSEED]
    returns an instance, [Encrypt] and [Decrypt] return normally on it,
    and the first 16 bytes [Decrypt] leaves in its destination are the
    plaintext, whatever the two destination buffers held. *)
Theorem decrypt_encrypt_roundtrip (K P : list byte) :
  length K = 16%nat -> length P = 16%nat ->
  exists c, NewSEED K = Normal (Some c, None) /\
    forall dst dst' : list byte,
      (16 <= length dst)%nat -> (16 <= length dst')%nat ->
      exists ct pt,
        Encrypt dst P c = (Normal ct, c) /\
        Decrypt dst' ct c = (Normal pt, c) /\
        take 16 pt = P.
Proof.
  intros HK HP. destruct (NewSEED_run K HK) as [Hnew Hwf].
  eexists. split; [exact Hnew|].
  intros dst dst' Hd Hd'.
  do 2 eexists. split; [apply Encrypt_run, Hwf|].
  split; [apply Decrypt_run, Hwf|].
  pose proof (read_quad_ok P) as Hok.
  rewrite (copy_16 dst) by (apply length_write_quad || exact Hd).
  rewrite read_written by (apply enc_words_ok; destruct (read_quad P) as [[[? ?] ?] ?]; exact Hok).
  rewrite dec_enc_words.
  rewrite copy_16 by (apply length_write_quad || exact Hd').
  rewrite write_read_quad by lia.
  rewrite take_app_length' by (rewrite length_take; lia).
  apply firstn_all2. lia.
Qed.

Lemma decrypt_encrypt_roundtrip_witness :
  exists c, NewSEED (repeat Byte.x00 16) = Normal (Some c, None) /\
    forall dst dst' : list byte,
      (16 <= length dst)%nat -> (16 <= length dst')%nat ->
      exists ct pt,
        Encrypt dst (repeat Byte.x2a 16) c = (Normal ct, c) /\
        Decrypt dst' ct c = (Normal pt, c) /\
        take 16 pt = repeat Byte.x2a 16.
Proof.
  apply (decrypt_encrypt_roundtrip (repeat Byte.x00 16) (repeat Byte.x2a 16));
    reflexivity.
Defined.

(** ** The block transform, round by round *)

Section Rounds.

Lemma lor_shiftl_add a b n :
  0 <= n -> 0 <= a < 2 ^ n -> Z.lor a (Z.shiftl b n) = a + b * 2 ^ n.
Proof.
  intros Hn Ha. pose proof (Z.add_lor_land a (Z.shiftl b n)) as Hadd.
  assert (Hz : Z.land a (Z.shiftl b n) = 0).
  { apply Z.bits_inj'. intros i Hi.
    rewrite Z.land_spec, Z.bits_0.
    destruct (Z.lt_ge_cases i n) as [Hlt | Hge].
    - rewrite Z.shiftl_spec_low by exact Hlt. apply Bool.andb_false_r.
    - rewrite <- (Z.mod_small a (2 ^ n)) by exact Ha.
      rewrite Z.mod_pow2_bits_high by lia. reflexivity. }
  rewrite Hz, Z.shiftl_mul_pow2 in Hadd by exact Hn.
  rewrite Z.shiftl_mul_pow2 by exact Hn. lia.
Qed.

Lemma Uint32_arith b0 b1 b2 b3 :
  binary.Uint32 b0 b1 b2 b3
  = byte.unsigned b0 * 2 ^ 24 + byte.unsigned b1 * 2 ^ 16
    + byte.unsigned b2 * 2 ^ 8 + byte.unsigned b3.
Proof.
  unfold binary.Uint32.
  pose proof (byte.unsigned_range b0). pose proof (byte.unsigned_range b1).
  pose proof (byte.unsigned_range b2). pose proof (byte.unsigned_range b3).
  rewrite (lor_shiftl_add _ _ 8) by lia.
  rewrite (lor_shiftl_add _ _ 16) by lia.
  rewrite (lor_shiftl_add _ _ 24) by lia.
  lia.
Qed.

Lemma PutUint32_arith w : binary.PutUint32 w = Spec.word_bytes w.
Proof.
  unfold binary.PutUint32, Spec.word_bytes.
  rewrite !Z.shiftr_div_pow2 by lia. reflexivity.
Qed.

Lemma read_quad_unpack (src : list byte) :
  length src = 16%nat -> read_quad src = Spec.unpack src.
Proof.
  intros Hlen.
  do 16 (destruct src as [|? src]; [discriminate Hlen|]).
  unfold read_quad, binary.Read, Spec.unpack, Spec.word_at.
  rewrite !Uint32_arith. reflexivity.
Qed.

Lemma write_quad_pack s : write_quad s = Spec.pack s.
Proof.
  destruct s as [[[w0 w1] w2] w3].
  unfold write_quad, binary.Write, Spec.pack. rewrite !PutUint32_arith.
  cbn [app]. reflexivity.
Qed.

Lemma enc_rounds_spec c s n :
  fold_left (enc_round c) (seq 1 n) s
  = Spec.rounds (fun i => nth i (k0 c) 0) (fun i => nth i (k1 c) 0) s n.
Proof.
  induction n as [|n IH].
  - reflexivity.
  - rewrite seq_S, fold_left_app, IH. cbn [fold_left Spec.rounds Nat.add].
    unfold enc_round. reflexivity.
Qed.

End Rounds.

(** C2. On a 16-byte block, [Encrypt] unpacks four big-endian words
    (L0, L1, R0, R1), runs rounds 1 to 15, each of which computes
    (f0, f1) = F(k0[i], k1[i], R0, R1) and replaces the state by
    (R0, R1, L0 xor f0, L1 xor f1), then with round key 16 updates only
    L0 and L1, and writes the big-endian bytes of (L0, L1, R0, R1) over
    the first 16 bytes of the destination. *)
Theorem Encrypt_feistel (c : SEEDCipher) (dst src : list byte) :
  wf c -> length src = 16%nat -> (16 <= length dst)%nat ->
  let K0 := fun i => nth i (k0 c) 0 in
  let K1 := fun i => nth i (k1 c) 0 in
  let '(L0, L1, R0, R1) := Spec.rounds K0 K1 (Spec.unpack src) 15 in
  let '(f0, f1) := f (K0 16%nat) (K1 16%nat) R0 R1 in
  Encrypt dst src c
  = (Normal (Spec.pack (Z.lxor L0 f0, Z.lxor L1 f1, R0, R1) ++ drop 16 dst), c).
Proof.
  intros Hwf Hsrc Hdst K0 K1.
  rewrite (Encrypt_run c dst src Hwf).
  rewrite copy_16 by (apply length_write_quad || exact Hdst).
  rewrite write_quad_pack, (read_quad_unpack src Hsrc).
  unfold enc_words. rewrite enc_rounds_spec. fold K0 K1.
  destruct (Spec.rounds K0 K1 (Spec.unpack src) 15) as [[[L0 L1] R0] R1].
  unfold last_round. fold (K0 16%nat) (K1 16%nat).
  destruct (f (K0 16%nat) (K1 16%nat) R0 R1) as [f0 f1]. reflexivity.
Qed.

Lemma Encrypt_feistel_witness :
  let c := new_SEEDCipher in
  let src := repeat Byte.x01 16 in
  let dst := repeat Byte.x00 20 in
  let K0 := fun i => nth i (k0 c) 0 in
  let K1 := fun i => nth i (k1 c) 0 in
  let '(L0, L1, R0, R1) := Spec.rounds K0 K1 (Spec.unpack src) 15 in
  let '(f0, f1) := f (K0 16%nat) (K1 16%nat) R0 R1 in
  Encrypt dst src c
  = (Normal (Spec.pack (Z.lxor L0 f0, Z.lxor L1 f1, R0, R1) ++ drop 16 dst), c).
Proof.
  apply (Encrypt_feistel new_SEEDCipher (repeat Byte.x00 20) (repeat Byte.x01 16)).
  - exact wf_new.
  - reflexivity.
  - cbn. lia.
Defined.

(** C4. The round function of the code, written as one nested
    expression, is the staged definition: with a = r0 xor k0,
    b = r1 xor k1, c = a xor b, g1 = G(c), g2 = G(g1 + a),
    g3 = G(g2 + g1), it returns (g3 + g2, g3), sums modulo 2^32. *)
Theorem f_staged (ka kb r0 r1 : Z) : f ka kb r0 r1 = Spec.F ka kb r0 r1.
Proof. reflexivity. Qed.

(** ** The key schedule *)

Section Schedule.

Lemma land_1_odd i : (Nat.land i 1 =? 1)%nat = Nat.odd i.
Proof.
  rewrite <- Nat.bit0_odd, Nat.bit0_eqb.
  pose proof (Nat.land_ones i 1) as H. cbn [Nat.ones Nat.pow] in H.
  change (Nat.land i 1 = i mod 2)%nat in H. rewrite H. reflexivity.
Qed.

Lemma nth_insert_eq (l : list Z) i v :
  (i < length l)%nat -> nth i (<[i := v]> l) 0 = v.
Proof.
  intros Hi. rewrite nth_lookup, list_lookup_insert_eq by exact Hi. reflexivity.
Qed.

Lemma nth_insert_ne (l : list Z) i j v :
  i <> j -> nth j (<[i := v]> l) 0 = nth j l 0.
Proof.
  intros Hne. rewrite !nth_lookup, list_lookup_insert_ne by exact Hne.
  reflexivity.
Qed.

Lemma ks_round_spec key c n :
  wf c -> (n <= 16)%nat ->
  let st := fold_left ks_round (seq 1 n) (key, c) in
  fst st = ks_words key n /\ wf (snd st) /\
  nth 0 (k0 (snd st)) 0 = nth 0 (k0 c) 0 /\
  nth 0 (k1 (snd st)) 0 = nth 0 (k1 c) 0 /\
  forall i, (1 <= i <= n)%nat -> scheduled key (snd st) i.
Proof.
  intros Hwf. induction n as [|n IH]; intros Hn; cbv zeta.
  - cbn [seq fold_left fst snd ks_words].
    repeat split; try exact (proj1 Hwf); try exact (proj2 Hwf). lia.
  - rewrite seq_S, fold_left_app. cbn [fold_left Nat.add].
    destruct IH as (Hkey & Hwf' & H00 & H01 & Hsched); [lia|].
    destruct (fold_left ks_round (seq 1 n) (key, c)) as [s cn].
    cbn [fst snd] in Hkey, Hwf', H00, H01, Hsched. subst s.
    cbn [ks_words]. unfold ks_round.
    destruct (ks_words key n) as [[[key0 key1] key2] key3] eqn:Hkw.
    rewrite land_1_odd. cbn [k0 k1].
    assert (Hstored :
      forall c', k0 c' = <[S n := g (U32.sub (U32.add key0 key2) (nth (S n) kc 0))]> (k0 cn) ->
                 k1 c' = <[S n := g (U32.add (U32.sub key1 key3) (nth (S n) kc 0))]> (k1 cn) ->
                 wf c' /\ nth 0 (k0 c') 0 = nth 0 (k0 c) 0 /\
                 nth 0 (k1 c') 0 = nth 0 (k1 c) 0 /\
                 forall i, (1 <= i <= S n)%nat -> scheduled key c' i).
    { intros c' E0 E1. destruct Hwf' as [L0 L1].
      split; [split; rewrite ?E0, ?E1, length_insert; assumption|].
      rewrite E0, E1, !nth_insert_ne by lia.
      split; [exact H00|]. split; [exact H01|].
      intros i Hi. unfold scheduled. rewrite E0, E1.
      destruct (Nat.eq_dec i (S n)) as [-> | Hne].
      - replace (S n - 1)%nat with n by lia. rewrite Hkw.
        rewrite !nth_insert_eq by lia.
        unfold U32.sub, U32.add, U32.wrap.
        rewrite Zminus_mod_idemp_l, Zplus_mod_idemp_l. split; reflexivity.
      - specialize (Hsched i ltac:(lia)). unfold scheduled in Hsched.
        destruct (ks_words key (i - 1)) as [[[a0 a1] a2] a3].
        rewrite !nth_insert_ne by lia. exact Hsched. }
    destruct (Nat.odd (S n)).
    + destruct (rotrbyte32 key0 key1) as [a b]. cbn [fst snd].
      split; [reflexivity|]. apply Hstored; reflexivity.
    + destruct (rotlbyte32 key2 key3) as [a b]. cbn [fst snd].
      split; [reflexivity|]. apply Hstored; reflexivity.
Qed.

End Schedule.

(** ** Construction *)

(** C5. [NewSEED] returns an instance exactly when the key has 16 bytes.
    For any other length it returns no instance and the key-size error
    that carries the length it was given; for a 16-byte key it returns
    no error and the instance the key schedule fills from a fresh one. *)
Theorem NewSEED_key_size (key : list byte) :
  (length key <> 16%nat ->
     NewSEED key = Normal (None, Some (KeySizeError (length key)))) /\
  (length key = 16%nat ->
     exists c, NewSEED key = Normal (Some c, None) /\ wf c /\
               subkeys key new_SEEDCipher = (Normal tt, c)) /\
  ((exists c, NewSEED key = Normal (Some c, None)) -> length key = 16%nat).
Proof.
  assert (Hbad : length key <> 16%nat ->
            NewSEED key = Normal (None, Some (KeySizeError (length key)))).
  { intros Hne. unfold NewSEED.
    destruct (Nat.eqb_spec (length key) 16%nat) as [He | _]; [contradiction|].
    reflexivity. }
  split; [exact Hbad|]. split.
  - intros Hlen. destruct (NewSEED_run key Hlen) as [Hnew Hwf].
    eexists. split; [exact Hnew|]. split; [exact Hwf|].
    apply subkeys_run, wf_new.
  - intros [c Hc]. destruct (Nat.eq_dec (length key) 16%nat) as [He | Hne].
    + exact He.
    + rewrite (Hbad Hne) in Hc. discriminate Hc.
Qed.

Lemma NewSEED_key_size_witness :
  NewSEED [] = Normal (None, Some (KeySizeError 0)) /\
  NewSEED (repeat Byte.x00 15) = Normal (None, Some (KeySizeError 15)) /\
  NewSEED (repeat Byte.x00 17) = Normal (None, Some (KeySizeError 17)) /\
  NewSEED (repeat Byte.x00 32) = Normal (None, Some (KeySizeError 32)) /\
  exists c, NewSEED (repeat Byte.x00 16) = Normal (Some c, None) /\ wf c /\
            subkeys (repeat Byte.x00 16) new_SEEDCipher = (Normal tt, c).
Proof.
  split; [apply (proj1 (NewSEED_key_size [])); cbn; lia|].
  split; [apply (proj1 (NewSEED_key_size (repeat Byte.x00 15))); cbn; lia|].
  split; [apply (proj1 (NewSEED_key_size (repeat Byte.x00 17))); cbn; lia|].
  split; [apply (proj1 (NewSEED_key_size (repeat Byte.x00 32))); cbn; lia|].
  apply (proj1 (proj2 (NewSEED_key_size (repeat Byte.x00 16)))). reflexivity.
Defined.

(** ** Byte rotations *)

Section Rotations.

Lemma ok_bounds x : U32.ok x -> 0 <= x < 4294967296.
Proof. unfold U32.ok. lia. Qed.

Lemma rotl_arith x0 x1 :
  U32.ok x0 -> U32.ok x1 ->
  rotlbyte32 x0 x1
  = ((x0 * 2 ^ 8) mod 2 ^ 32 + x1 / 2 ^ 24,
     (x1 * 2 ^ 8) mod 2 ^ 32 + x0 / 2 ^ 24).
Proof.
  intros H0 H1. unfold rotlbyte32, U32.shl, U32.shr, U32.wrap.
  rewrite !Z.shiftr_land.
  change (Z.shiftr 0xff000000 24) with (Z.ones 8).
  rewrite !Z.land_ones, !Z.shiftr_div_pow2, !Z.shiftl_mul_pow2 by lia.
  apply ok_bounds in H0, H1.
  rewrite (Z.mod_small (x0 / 2 ^ 24)), (Z.mod_small (x1 / 2 ^ 24))
    by (split; [apply Z.div_pos; lia | apply Z.div_lt_upper_bound; lia]).
  f_equal.
  - rewrite Z.lor_comm.
    replace ((x0 * 2 ^ 8) mod 2 ^ 32) with ((x0 mod 2 ^ 24) * 2 ^ 8)
      by (change (2 ^ 32) with (2 ^ 24 * 2 ^ 8);
          rewrite Z.mul_mod_distr_r by lia; reflexivity).
    rewrite <- (Z.shiftl_mul_pow2 _ 8) by lia.
    rewrite lor_shiftl_add;
      [rewrite Z.shiftl_mul_pow2 by lia; lia | lia |].
    split; [apply Z.div_pos; lia | apply Z.div_lt_upper_bound; lia].
  - rewrite Z.lor_comm.
    replace ((x1 * 2 ^ 8) mod 2 ^ 32) with ((x1 mod 2 ^ 24) * 2 ^ 8)
      by (change (2 ^ 32) with (2 ^ 24 * 2 ^ 8);
          rewrite Z.mul_mod_distr_r by lia; reflexivity).
    rewrite <- (Z.shiftl_mul_pow2 _ 8) by lia.
    rewrite lor_shiftl_add;
      [rewrite Z.shiftl_mul_pow2 by lia; lia | lia |].
    split; [apply Z.div_pos; lia | apply Z.div_lt_upper_bound; lia].
Qed.

Lemma rotr_arith x0 x1 :
  U32.ok x0 -> U32.ok x1 ->
  rotrbyte32 x0 x1
  = (x0 / 2 ^ 8 + (x1 mod 2 ^ 8) * 2 ^ 24,
     x1 / 2 ^ 8 + (x0 mod 2 ^ 8) * 2 ^ 24).
Proof.
  intros H0 H1. unfold rotrbyte32, U32.shl, U32.shr, U32.wrap.
  change 0x000000ff with (Z.ones 8).
  rewrite !Z.land_ones, !Z.shiftr_div_pow2, !Z.shiftl_mul_pow2 by lia.
  apply ok_bounds in H0, H1.
  pose proof (Z.mod_pos_bound x0 (2 ^ 8) ltac:(lia)) as B0.
  pose proof (Z.mod_pos_bound x1 (2 ^ 8) ltac:(lia)) as B1.
  rewrite (Z.mod_small (x0 mod 2 ^ 8 * 2 ^ 24)), (Z.mod_small (x1 mod 2 ^ 8 * 2 ^ 24))
    by lia.
  rewrite <- !(Z.shiftl_mul_pow2 _ 24) by lia.
  rewrite !lor_shiftl_add;
    try lia; try (split; [apply Z.div_pos; lia | apply Z.div_lt_upper_bound; lia]).
  rewrite !Z.shiftl_mul_pow2 by lia. reflexivity.
Qed.

Lemma rotl_ok x0 x1 :
  U32.ok x0 -> U32.ok x1 ->
  U32.ok (fst (rotlbyte32 x0 x1)) /\ U32.ok (snd (rotlbyte32 x0 x1)).
Proof.
  intros H0 H1. rewrite (rotl_arith x0 x1 H0 H1). cbn [fst snd].
  apply ok_bounds in H0, H1. unfold U32.ok.
  Z.div_mod_to_equations. lia.
Qed.

Lemma rotr_ok x0 x1 :
  U32.ok x0 -> U32.ok x1 ->
  U32.ok (fst (rotrbyte32 x0 x1)) /\ U32.ok (snd (rotrbyte32 x0 x1)).
Proof.
  intros H0 H1. rewrite (rotr_arith x0 x1 H0 H1). cbn [fst snd].
  apply ok_bounds in H0, H1. unfold U32.ok.
  Z.div_mod_to_equations. lia.
Qed.

End Rotations.

(** ** The key schedule and the 64-bit rotations *)

Section ScheduleRotations.

Lemma rotl_hi_lo x0 x1 :
  U32.ok x0 -> U32.ok x1 ->
  rotlbyte32 x0 x1
  = (Spec.hi (Spec.rotl64 (Spec.concat x0 x1) 8),
     Spec.lo (Spec.rotl64 (Spec.concat x0 x1) 8)).
Proof.
  intros H0 H1. rewrite (rotl_arith x0 x1 H0 H1).
  unfold Spec.hi, Spec.lo, Spec.rotl64, Spec.concat.
  apply ok_bounds in H0, H1.
  change (2 ^ (64 - 8)) with 72057594037927936.
  change (2 ^ 64) with 18446744073709551616.
  change (2 ^ 32) with 4294967296. change (2 ^ 24) with 16777216.
  change (2 ^ 8) with 256.
  f_equal; Z.div_mod_to_equations; lia.
Qed.

Lemma rotr_hi_lo x0 x1 :
  U32.ok x0 -> U32.ok x1 ->
  rotrbyte32 x0 x1
  = (Spec.hi (Spec.rotr64 (Spec.concat x0 x1) 8),
     Spec.lo (Spec.rotr64 (Spec.concat x0 x1) 8)).
Proof.
  intros H0 H1. rewrite (rotr_arith x0 x1 H0 H1).
  unfold Spec.hi, Spec.lo, Spec.rotr64, Spec.concat.
  apply ok_bounds in H0, H1.
  change (2 ^ (64 - 8)) with 72057594037927936.
  change (2 ^ 64) with 18446744073709551616.
  change (2 ^ 32) with 4294967296. change (2 ^ 24) with 16777216.
  change (2 ^ 8) with 256.
  f_equal; Z.div_mod_to_equations; lia.
Qed.

(** The local key words of [subkeys] are the key rotated as 64-bit
    values, and they stay 32-bit words. *)
Lemma ks_words_spec key n :
  quad_ok key ->
  ks_words key n = Spec.key_words key n /\ quad_ok (ks_words key n).
Proof.
  intros Hkey. induction n as [|n [IHeq IHok]].
  - split; [reflexivity | exact Hkey].
  - cbn [ks_words Spec.key_words]. rewrite <- IHeq.
    destruct (ks_words key n) as [[[a b] d] e].
    destruct IHok as (Ha & Hb & Hd & He).
    destruct (Nat.odd (S n)).
    + pose proof (rotr_ok a b Ha Hb) as [P Q].
      rewrite (rotr_hi_lo a b Ha Hb) in *. cbn [fst snd] in P, Q.
      cbv beta iota zeta. split; [reflexivity|].
      refine (conj _ (conj _ (conj _ _))); assumption.
    + pose proof (rotl_ok d e Hd He) as [P Q].
      rewrite (rotl_hi_lo d e Hd He) in *. cbn [fst snd] in P, Q.
      cbv beta iota zeta. split; [reflexivity|].
      refine (conj _ (conj _ (conj _ _))); assumption.
Qed.

End ScheduleRotations.

(** C3. The key schedule reads the 16-byte key as four big-endian words
    key0 .. key3 and, for each round i from 1 to 16, stores
    k0[i] = G(key0 + key2 - KC[i]) and k1[i] = G(key1 - key3 + KC[i]),
    sums modulo 2^32, the key words of round i being those left by the
    rotations of the rounds before it: the 64-bit value key0‖key1
    rotated right by one byte after an odd round, key2‖key3 rotated left
    by one byte after an even one.  KC[1] is 0x9E3779B9, and entry 0 of
    both arrays is left as it was. *)
Theorem subkeys_schedule (c : SEEDCipher) (key : list byte) :
  wf c -> length key = 16%nat ->
  exists c',
    subkeys key c = (Normal tt, c') /\ wf c' /\
    (forall i, (1 <= i <= 16)%nat ->
       let '(key0, key1, key2, key3) := Spec.key_words (Spec.unpack key) (i - 1) in
       nth i (k0 c') 0 = g ((key0 + key2 - nth i kc 0) mod 2 ^ 32) /\
       nth i (k1 c') 0 = g ((key1 - key3 + nth i kc 0) mod 2 ^ 32)) /\
    nth 0 (k0 c') 0 = nth 0 (k0 c) 0 /\ nth 0 (k1 c') 0 = nth 0 (k1 c) 0 /\
    nth 1 kc 0 = 0x9E3779B9.
Proof.
  intros Hwf Hlen. destruct (subkeys_run key c Hwf) as [Hrun _].
  eexists. split; [exact Hrun|].
  destruct (ks_round_spec (read_quad key) c 16 Hwf (Nat.le_refl 16))
    as (_ & Hwf' & H00 & H01 & Hsched).
  assert (Hq : quad_ok (read_quad key)).
  { pose proof (read_quad_ok key) as H.
    destruct (read_quad key) as [[[? ?] ?] ?]. exact H. }
  rewrite (read_quad_unpack key Hlen) in *.
  split; [exact Hwf'|]. split; [|split; [exact H00|]; split; [exact H01|]; reflexivity].
  intros i Hi. specialize (Hsched i Hi). unfold scheduled in Hsched.
  rewrite (proj1 (ks_words_spec (Spec.unpack key) (i - 1) Hq)) in Hsched.
  exact Hsched.
Qed.

Lemma subkeys_schedule_witness :
  let c := {| k0 := map Z.of_nat (seq 100 17); k1 := map Z.of_nat (seq 200 17) |} in
  let key := [Byte.x00; Byte.x01; Byte.x02; Byte.x03; Byte.x04; Byte.x05;
              Byte.x06; Byte.x07; Byte.x08; Byte.x09; Byte.x0a; Byte.x0b;
              Byte.x0c; Byte.x0d; Byte.x0e; Byte.x0f] in
  exists c',
    subkeys key c = (Normal tt, c') /\ wf c' /\
    (forall i, (1 <= i <= 16)%nat ->
       let '(key0, key1, key2, key3) := Spec.key_words (Spec.unpack key) (i - 1) in
       nth i (k0 c') 0 = g ((key0 + key2 - nth i kc 0) mod 2 ^ 32) /\
       nth i (k1 c') 0 = g ((key1 - key3 + nth i kc 0) mod 2 ^ 32)) /\
    nth 0 (k0 c') 0 = nth 0 (k0 c) 0 /\ nth 0 (k1 c') 0 = nth 0 (k1 c) 0 /\
    nth 1 kc 0 = 0x9E3779B9.
Proof.
  apply (subkeys_schedule
           {| k0 := map Z.of_nat (seq 100 17); k1 := map Z.of_nat (seq 200 17) |}
           [Byte.x00; Byte.x01; Byte.x02; Byte.x03; Byte.x04; Byte.x05;
            Byte.x06; Byte.x07; Byte.x08; Byte.x09; Byte.x0a; Byte.x0b;
            Byte.x0c; Byte.x0d; Byte.x0e; Byte.x0f]).
  - split; reflexivity.
  - reflexivity.
Defined.

(** The key 00 01 .. 0F after one and after two rounds of rotation. *)
Example key_words_example :
  Spec.key_words (0x00010203, 0x04050607, 0x08090A0B, 0x0C0D0E0F) 1
  = (0x07000102, 0x03040506, 0x08090A0B, 0x0C0D0E0F) /\
  Spec.key_words (0x00010203, 0x04050607, 0x08090A0B, 0x0C0D0E0F) 2
  = (0x07000102, 0x03040506, 0x090A0B0C, 0x0D0E0F08).
Proof. split; reflexivity. Qed.

(** C7. On 32-bit words, [rotlbyte32] returns the high and the low half
    of the 64-bit value x0‖x1 rotated left by 8 bits and [rotrbyte32]
    those of x0‖x1 rotated right by 8 bits; the results are 32-bit words
    again, and each function undoes the other. *)
Theorem rot_byte_64 (x0 x1 : Z) :
  U32.ok x0 -> U32.ok x1 ->
  let x := Spec.concat x0 x1 in
  rotlbyte32 x0 x1 = (Spec.hi (Spec.rotl64 x 8), Spec.lo (Spec.rotl64 x 8)) /\
  rotrbyte32 x0 x1 = (Spec.hi (Spec.rotr64 x 8), Spec.lo (Spec.rotr64 x 8)) /\
  U32.ok (fst (rotlbyte32 x0 x1)) /\ U32.ok (snd (rotlbyte32 x0 x1)) /\
  U32.ok (fst (rotrbyte32 x0 x1)) /\ U32.ok (snd (rotrbyte32 x0 x1)) /\
  (let '(y0, y1) := rotlbyte32 x0 x1 in rotrbyte32 y0 y1 = (x0, x1)) /\
  (let '(y0, y1) := rotrbyte32 x0 x1 in rotlbyte32 y0 y1 = (x0, x1)).
Proof.
  intros H0 H1 x. subst x.
  pose proof (rotl_ok x0 x1 H0 H1) as [Hl0 Hl1].
  pose proof (rotr_ok x0 x1 H0 H1) as [Hr0 Hr1].
  split; [|split]; [| |split; [exact Hl0|]; split; [exact Hl1|];
                        split; [exact Hr0|]; split; [exact Hr1|]; split].
  - rewrite (rotl_arith x0 x1 H0 H1).
    unfold Spec.hi, Spec.lo, Spec.rotl64, Spec.concat.
    apply ok_bounds in H0, H1. clear Hl0 Hl1 Hr0 Hr1.
    change (2 ^ (64 - 8)) with 72057594037927936.
    change (2 ^ 64) with 18446744073709551616.
    change (2 ^ 32) with 4294967296. change (2 ^ 24) with 16777216.
    change (2 ^ 8) with 256.
    f_equal; Z.div_mod_to_equations; lia.
  - rewrite (rotr_arith x0 x1 H0 H1).
    unfold Spec.hi, Spec.lo, Spec.rotr64, Spec.concat.
    apply ok_bounds in H0, H1. clear Hl0 Hl1 Hr0 Hr1.
    change (2 ^ (64 - 8)) with 72057594037927936.
    change (2 ^ 64) with 18446744073709551616.
    change (2 ^ 32) with 4294967296. change (2 ^ 24) with 16777216.
    change (2 ^ 8) with 256.
    f_equal; Z.div_mod_to_equations; lia.
  - destruct (rotlbyte32 x0 x1) as [y0 y1] eqn:E. cbn [fst snd] in Hl0, Hl1.
    rewrite (rotr_arith y0 y1 Hl0 Hl1).
    rewrite (rotl_arith x0 x1 H0 H1) in E. injection E as <- <-.
    apply ok_bounds in H0, H1. clear Hl0 Hl1 Hr0 Hr1.
    change (2 ^ 32) with 4294967296. change (2 ^ 24) with 16777216.
    change (2 ^ 8) with 256.
    f_equal; Z.div_mod_to_equations; lia.
  - destruct (rotrbyte32 x0 x1) as [y0 y1] eqn:E. cbn [fst snd] in Hr0, Hr1.
    rewrite (rotl_arith y0 y1 Hr0 Hr1).
    rewrite (rotr_arith x0 x1 H0 H1) in E. injection E as <- <-.
    apply ok_bounds in H0, H1. clear Hl0 Hl1 Hr0 Hr1.
    change (2 ^ 32) with 4294967296. change (2 ^ 24) with 16777216.
    change (2 ^ 8) with 256.
    f_equal; Z.div_mod_to_equations; lia.
Qed.

Lemma rot_byte_64_witness :
  let x := Spec.concat 0x01234567 0x89ABCDEF in
  rotlbyte32 0x01234567 0x89ABCDEF
    = (Spec.hi (Spec.rotl64 x 8), Spec.lo (Spec.rotl64 x 8)) /\
  rotrbyte32 0x01234567 0x89ABCDEF
    = (Spec.hi (Spec.rotr64 x 8), Spec.lo (Spec.rotr64 x 8)) /\
  U32.ok (fst (rotlbyte32 0x01234567 0x89ABCDEF)) /\
  U32.ok (snd (rotlbyte32 0x01234567 0x89ABCDEF)) /\
  U32.ok (fst (rotrbyte32 0x01234567 0x89ABCDEF)) /\
  U32.ok (snd (rotrbyte32 0x01234567 0x89ABCDEF)) /\
  (let '(y0, y1) := rotlbyte32 0x01234567 0x89ABCDEF in
   rotrbyte32 y0 y1 = (0x01234567, 0x89ABCDEF)) /\
  (let '(y0, y1) := rotrbyte32 0x01234567 0x89ABCDEF in
   rotlbyte32 y0 y1 = (0x01234567, 0x89ABCDEF)).
Proof.
  apply (rot_byte_64 0x01234567 0x89ABCDEF); unfold U32.ok; lia.
Defined.

Example rotlbyte32_example :
  rotlbyte32 0x01234567 0x89ABCDEF = (0x23456789, 0xABCDEF01).
Proof. reflexivity. Qed.

Example rotrbyte32_example :
  rotrbyte32 0x01234567 0x89ABCDEF = (0xEF012345, 0x6789ABCD).
Proof. reflexivity. Qed.

(** ** Reset *)

Section Zeroing.

Lemma reset_rounds_zero c :
  wf c ->
  snd (fold_left reset_round (seq 0 17) (tt, c))
  = {| k0 := replicate 17 0; k1 := replicate 17 0 |}.
Proof.
  intros [H0 H1]. destruct c as [a b]. cbn [k0 k1] in H0, H1.
  do 17 (destruct a as [|? a]; [discriminate H0|]).
  destruct a; [|discriminate H0].
  do 17 (destruct b as [|? b]; [discriminate H1|]).
  destruct b; [|discriminate H1].
  reflexivity.
Qed.

End Zeroing.

(** C8. After [Reset] every entry of [k0] and of [k1] is zero, and a
    second [Reset] returns the same all-zero instance. *)
Theorem Reset_zeroes (c : SEEDCipher) :
  wf c ->
  exists c',
    Reset c = (Normal tt, c') /\
    k0 c' = replicate 17 0 /\ k1 c' = replicate 17 0 /\
    (forall i, nth i (k0 c') 0 = 0 /\ nth i (k1 c') 0 = 0) /\
    Reset c' = (Normal tt, c').
Proof.
  intros Hwf. destruct (Reset_run c Hwf) as [Hrun Hwf'].
  rewrite (reset_rounds_zero c Hwf) in Hrun, Hwf'.
  eexists. split; [exact Hrun|]. cbn [k0 k1].
  split; [reflexivity|]. split; [reflexivity|]. split.
  - intros i. rewrite !nth_lookup.
    destruct (replicate 17 0 !! i) as [v|] eqn:E; cbn [default].
    + apply lookup_replicate in E. split; apply E.
    + split; reflexivity.
  - destruct (Reset_run _ Hwf') as [Hrun' _].
    rewrite (reset_rounds_zero _ Hwf') in Hrun'. exact Hrun'.
Qed.

Lemma Reset_zeroes_witness :
  exists c',
    Reset {| k0 := map Z.of_nat (seq 100 17); k1 := map Z.of_nat (seq 200 17) |}
      = (Normal tt, c') /\
    k0 c' = replicate 17 0 /\ k1 c' = replicate 17 0 /\
    (forall i, nth i (k0 c') 0 = 0 /\ nth i (k1 c') 0 = 0) /\
    Reset c' = (Normal tt, c').
Proof.
  apply (Reset_zeroes
           {| k0 := map Z.of_nat (seq 100 17); k1 := map Z.of_nat (seq 200 17) |}).
  split; reflexivity.
Defined.

(** ** What the block transforms leave alone *)

Section Frame.

Lemma readonly_ret {A} (a : A) : readonly (mret a).
Proof. intros c. reflexivity. Qed.

Lemma readonly_bind {A B} (m : M A) (k : A -> M B) :
  readonly m -> (forall a, readonly (k a)) -> readonly (m ≫= k).
Proof.
  intros Hm Hk c. unfold mbind, M_bind, bind.
  specialize (Hm c). destruct (m c) as [[a|] c1]; cbn [snd] in Hm; subst c1.
  - apply Hk.
  - reflexivity.
Qed.

Lemma readonly_get_k0 i : readonly (get_k0 i).
Proof. intros c. unfold get_k0. destruct (k0 c !! i); reflexivity. Qed.

Lemma readonly_get_k1 i : readonly (get_k1 i).
Proof. intros c. unfold get_k1. destruct (k1 c !! i); reflexivity. Qed.

Lemma readonly_for_each {S} (body : nat -> S -> M S) idx :
  (forall i s, readonly (body i s)) -> forall s, readonly (for_each idx body s).
Proof.
  intros Hbody. induction idx as [|i idx IH]; intros s; cbn [for_each].
  - apply readonly_ret.
  - apply readonly_bind; [apply Hbody | exact IH].
Qed.

Lemma readonly_Encrypt dst src : readonly (Encrypt dst src).
Proof.
  unfold Encrypt. destruct (read_quad src) as [[[l0 l1] r0] r1].
  apply readonly_bind.
  - apply readonly_for_each. intros i [[[a b] d] e].
    apply readonly_bind; [apply readonly_get_k0|]. intros ki0.
    apply readonly_bind; [apply readonly_get_k1|]. intros ki1.
    destruct (f ki0 ki1 d e). apply readonly_ret.
  - intros [[[a b] d] e].
    apply readonly_bind; [apply readonly_get_k0|]. intros ki0.
    apply readonly_bind; [apply readonly_get_k1|]. intros ki1.
    destruct (f ki0 ki1 d e). apply readonly_ret.
Qed.

Lemma readonly_Decrypt dst src : readonly (Decrypt dst src).
Proof.
  unfold Decrypt. destruct (read_quad src) as [[[l0 l1] r0] r1].
  apply readonly_bind; [apply readonly_get_k0|]. intros ki0.
  apply readonly_bind; [apply readonly_get_k1|]. intros ki1.
  destruct (f ki0 ki1 r0 r1).
  apply readonly_bind.
  - apply readonly_for_each. intros i [[[a b] d] e].
    apply readonly_bind; [apply readonly_get_k0|]. intros kj0.
    apply readonly_bind; [apply readonly_get_k1|]. intros kj1.
    destruct (f kj0 kj1 a b). apply readonly_ret.
  - intros s. apply readonly_ret.
Qed.

End Frame.

(** C9. [Encrypt] and [Decrypt] leave the round keys as they found them,
    for every instance and every pair of buffers, whichever way the call
    ends. *)
Theorem transforms_keep_round_keys (c : SEEDCipher) (dst src : list byte) :
  k0 (snd (Encrypt dst src c)) = k0 c /\ k1 (snd (Encrypt dst src c)) = k1 c /\
  k0 (snd (Decrypt dst src c)) = k0 c /\ k1 (snd (Decrypt dst src c)) = k1 c.
Proof.
  rewrite (readonly_Encrypt dst src c), (readonly_Decrypt dst src c).
  repeat split.
Qed.

(** ** Buffers of any length *)

Section Buffers.

Lemma length_copy dst src : length (copy dst src) = length dst.
Proof.
  unfold copy. rewrite length_app, length_take, length_drop. lia.
Qed.

Lemma drop_copy_16 dst (src : list byte) :
  length src = 16%nat -> drop 16 (copy dst src) = drop 16 dst.
Proof.
  intros Hs. unfold copy. rewrite Hs.
  destruct (Nat.le_ge_cases 16 (length dst)) as [Hd | Hd].
  - rewrite Nat.min_r by exact Hd.
    rewrite drop_app_length' by (rewrite length_take; lia). reflexivity.
  - rewrite Nat.min_l by exact Hd.
    rewrite !drop_ge; [reflexivity | lia |].
    rewrite length_app, length_take, length_drop. lia.
Qed.

Lemma copy_short dst (src : list byte) :
  length src = 16%nat ->
  copy dst src = take (length dst) src ++ drop 16 dst.
Proof.
  intros Hs. unfold copy. rewrite Hs.
  destruct (Nat.le_ge_cases 16 (length dst)) as [Hd | Hd].
  - rewrite Nat.min_r by exact Hd. rewrite !firstn_all2 by lia. reflexivity.
  - rewrite Nat.min_l by exact Hd. rewrite !drop_ge by lia. reflexivity.
Qed.

(** Reading four words from a buffer is reading them from its whole
    4-byte groups followed by zero bytes. *)
Lemma read_quad_short (src : list byte) :
  read_quad src
  = read_quad (take 16 (take (4 * (length src / 4)) src ++ repeat Byte.x00 16)).
Proof.
  destruct (le_lt_dec 16 (length src)) as [Hge | Hlt].
  - pose proof (Nat.div_mod_eq (length src) 4) as Hdm.
    pose proof (Nat.mod_upper_bound (length src) 4 ltac:(lia)) as Hm.
    rewrite take_app_le by (rewrite length_take; lia).
    rewrite take_take, Nat.min_l by lia.
    symmetry. apply read_quad_take, Hge.
  - do 16 (destruct src as [|? src]; [reflexivity|]).
    cbn [length] in Hlt. lia.
Qed.

End Buffers.

(** C10. With at least 16 bytes in [src] and in [dst], [Encrypt] and
    [Decrypt] read the first 16 bytes of [src] only and write bytes 0 to
    15 of [dst] only: the bytes of [dst] from index 16 on are unchanged,
    its length is unchanged, and the 16 bytes written are the same for
    any other source that starts with the same 16 bytes and any other
    destination. *)
Theorem transforms_use_16_bytes (c : SEEDCipher) (dst src : list byte) :
  wf c -> (16 <= length src)%nat -> (16 <= length dst)%nat ->
  exists ct pt,
    Encrypt dst src c = (Normal ct, c) /\
    Decrypt dst src c = (Normal pt, c) /\
    length ct = length dst /\ length pt = length dst /\
    drop 16 ct = drop 16 dst /\ drop 16 pt = drop 16 dst /\
    forall dst' src' : list byte,
      (16 <= length dst')%nat -> take 16 src' = take 16 src ->
      exists ct' pt',
        Encrypt dst' src' c = (Normal ct', c) /\
        Decrypt dst' src' c = (Normal pt', c) /\
        take 16 ct' = take 16 ct /\ take 16 pt' = take 16 pt.
Proof.
  intros Hwf Hsrc Hdst.
  do 2 eexists.
  split; [apply Encrypt_run, Hwf|]. split; [apply Decrypt_run, Hwf|].
  rewrite !length_copy, !drop_copy_16 by apply length_write_quad.
  do 4 (split; [reflexivity|]).
  intros dst' src' Hdst' Hsame.
  assert (Hsrc' : (16 <= length src')%nat).
  { apply (f_equal length) in Hsame. rewrite !length_take in Hsame. lia. }
  do 2 eexists.
  split; [apply Encrypt_run, Hwf|]. split; [apply Decrypt_run, Hwf|].
  rewrite <- (read_quad_take src' Hsrc'), Hsame, (read_quad_take src Hsrc).
  rewrite !copy_16 by (apply length_write_quad || assumption).
  rewrite !take_app_length' by (symmetry; apply length_write_quad).
  split; reflexivity.
Qed.

Lemma transforms_use_16_bytes_witness :
  let c := new_SEEDCipher in
  let src := repeat Byte.x11 16 ++ [Byte.x22; Byte.x33] in
  let dst := repeat Byte.x44 18 in
  exists ct pt,
    Encrypt dst src c = (Normal ct, c) /\
    Decrypt dst src c = (Normal pt, c) /\
    length ct = length dst /\ length pt = length dst /\
    drop 16 ct = drop 16 dst /\ drop 16 pt = drop 16 dst /\
    forall dst' src' : list byte,
      (16 <= length dst')%nat -> take 16 src' = take 16 src ->
      exists ct' pt',
        Encrypt dst' src' c = (Normal ct', c) /\
        Decrypt dst' src' c = (Normal pt', c) /\
        take 16 ct' = take 16 ct /\ take 16 pt' = take 16 pt.
Proof.
  apply (transforms_use_16_bytes new_SEEDCipher (repeat Byte.x44 18)
           (repeat Byte.x11 16 ++ [Byte.x22; Byte.x33])).
  - exact wf_new.
  - cbn. lia.
  - cbn. lia.
Defined.

(** C6, as the code has it.  A call of [Encrypt] or [Decrypt] with a
    source or a destination shorter than 16 bytes does not fail: it
    returns normally.  Of the source it uses the whole 4-byte groups and
    takes every word it cannot read in full as zero, so that the result
    is the one for that zero-filled block, and of this 16-byte result
    only the first [len(dst)] bytes reach the destination. *)
Theorem short_buffers_return_normally (c : SEEDCipher) (dst src : list byte) :
  wf c -> (length src < 16 \/ length dst < 16)%nat ->
  let block := take 16 (take (4 * (length src / 4)) src ++ repeat Byte.x00 16) in
  exists ct pt full_ct full_pt,
    Encrypt dst src c = (Normal ct, c) /\
    Decrypt dst src c = (Normal pt, c) /\
    length block = 16%nat /\
    Encrypt (repeat Byte.x00 16) block c = (Normal full_ct, c) /\
    Decrypt (repeat Byte.x00 16) block c = (Normal full_pt, c) /\
    length full_ct = 16%nat /\ length full_pt = 16%nat /\
    ct = take (length dst) full_ct ++ drop 16 dst /\
    pt = take (length dst) full_pt ++ drop 16 dst.
Proof.
  intros Hwf _ block.
  do 4 eexists.
  split; [apply Encrypt_run, Hwf|]. split; [apply Decrypt_run, Hwf|].
  split.
  { subst block. rewrite length_take, length_app, length_take, repeat_length. lia. }
  split; [apply Encrypt_run, Hwf|]. split; [apply Decrypt_run, Hwf|].
  rewrite !length_copy, repeat_length.
  do 2 (split; [reflexivity|]).
  subst block. rewrite <- (read_quad_short src).
  rewrite (copy_16 (repeat Byte.x00 16))
    by (apply length_write_quad || (rewrite repeat_length; lia)).
  rewrite (copy_16 (repeat Byte.x00 16))
    by (apply length_write_quad || (rewrite repeat_length; lia)).
  cbn [repeat drop]. rewrite !app_nil_r.
  split; apply copy_short, length_write_quad.
Qed.

Lemma short_buffers_return_normally_witness :
  let c := new_SEEDCipher in
  let src := [Byte.x01; Byte.x02; Byte.x03; Byte.x04; Byte.x05] in
  let dst := [Byte.xff; Byte.xff; Byte.xff] in
  let block := take 16 (take (4 * (length src / 4)) src ++ repeat Byte.x00 16) in
  exists ct pt full_ct full_pt,
    Encrypt dst src c = (Normal ct, c) /\
    Decrypt dst src c = (Normal pt, c) /\
    length block = 16%nat /\
    Encrypt (repeat Byte.x00 16) block c = (Normal full_ct, c) /\
    Decrypt (repeat Byte.x00 16) block c = (Normal full_pt, c) /\
    length full_ct = 16%nat /\ length full_pt = 16%nat /\
    ct = take (length dst) full_ct ++ drop 16 dst /\
    pt = take (length dst) full_pt ++ drop 16 dst.
Proof.
  apply (short_buffers_return_normally new_SEEDCipher
           [Byte.xff; Byte.xff; Byte.xff]
           [Byte.x01; Byte.x02; Byte.x03; Byte.x04; Byte.x05]).
  - exact wf_new.
  - left. cbn. lia.
Defined.

(** C6, as the specification words it, fails: on the instance of the
    all-zero key, a call with a 3-byte source returns the ciphertext of
    the zero block, a call with a 2-byte destination returns after
    writing two bytes of ciphertext, and [Decrypt] does the like; none of
    them panics. *)
Lemma short_buffers_do_not_panic :
  exists c,
    NewSEED (repeat Byte.x00 16) = Normal (Some c, None) /\
    fst (Encrypt (repeat Byte.x00 16) [Byte.x00; Byte.x01; Byte.x02] c)
    = Normal [Byte.x90; Byte.x69; Byte.x9d; Byte.xe4; Byte.x78; Byte.x93;
              Byte.x70; Byte.x1e; Byte.x75; Byte.x11; Byte.x19; Byte.x6b;
              Byte.xe3; Byte.x12; Byte.xaf; Byte.x92] /\
    fst (Encrypt [Byte.x00; Byte.x00]
           [Byte.x00; Byte.x01; Byte.x02; Byte.x03; Byte.x04; Byte.x05;
            Byte.x06; Byte.x07; Byte.x08; Byte.x09; Byte.x0a; Byte.x0b;
            Byte.x0c; Byte.x0d; Byte.x0e; Byte.x0f] c)
    = Normal [Byte.x5e; Byte.xba] /\
    fst (Decrypt (repeat Byte.x00 16)
           [Byte.x5e; Byte.xba; Byte.xc6; Byte.xe0; Byte.x05] c)
    = Normal [Byte.x6d; Byte.x65; Byte.x2d; Byte.xe7; Byte.x28; Byte.xd0;
              Byte.xd3; Byte.xa1; Byte.x04; Byte.x4b; Byte.x60; Byte.x0b;
              Byte.xa7; Byte.x3a; Byte.x81; Byte.xad] /\
    fst (Decrypt []
           [Byte.x5e; Byte.xba; Byte.xc6; Byte.xe0; Byte.x05; Byte.x4e;
            Byte.x16; Byte.x68; Byte.x19; Byte.xaf; Byte.xf1; Byte.xcc;
            Byte.x6d; Byte.x34; Byte.x6c; Byte.xdb] c)
    = Normal [].
Proof.
  eexists. split; [vm_compute; reflexivity|].
  vm_compute. repeat split.
Qed.

(** ** Known answers *)

(** RFC 4269, appendix B.1: key of sixteen zero bytes, plaintext
    00 01 .. 0F, ciphertext 5E BA C6 E0 05 4E 16 68 19 AF F1 CC 6D 34 6C DB. *)
Example rfc4269_vector_1 :
  exists c,
    NewSEED (repeat Byte.x00 16) = Normal (Some c, None) /\
    fst (Encrypt (repeat Byte.x00 16)
           [Byte.x00; Byte.x01; Byte.x02; Byte.x03; Byte.x04; Byte.x05;
            Byte.x06; Byte.x07; Byte.x08; Byte.x09; Byte.x0a; Byte.x0b;
            Byte.x0c; Byte.x0d; Byte.x0e; Byte.x0f] c)
    = Normal [Byte.x5e; Byte.xba; Byte.xc6; Byte.xe0; Byte.x05; Byte.x4e;
              Byte.x16; Byte.x68; Byte.x19; Byte.xaf; Byte.xf1; Byte.xcc;
              Byte.x6d; Byte.x34; Byte.x6c; Byte.xdb] /\
    nth 1 (k0 c) 0 = 0x7C8F8C7E /\ nth 1 (k1 c) 0 = 0xC737A22C.
Proof.
  eexists. split; [vm_compute; reflexivity|].
  vm_compute. repeat split.
Qed.

(** * Further properties *)

(** ** Both directions, any instance *)

Section Inverse.

Lemma enc_dec_round c s i : enc_round c (dec_round c s i) i = s.
Proof.
  destruct s as [[[l0 l1] r0] r1]. unfold dec_round.
  destruct (f _ _ l0 l1) as [f0 f1] eqn:Hf.
  unfold enc_round. rewrite Hf, !lxor_cancel. reflexivity.
Qed.

Lemma enc_dec_rounds c idx :
  forall s, fold_left (enc_round c) idx (fold_left (dec_round c) (rev idx) s) = s.
Proof.
  induction idx as [|i idx IH]; intros s; cbn [rev fold_left].
  - reflexivity.
  - rewrite fold_left_app. cbn [fold_left]. rewrite enc_dec_round. apply IH.
Qed.

Lemma enc_dec_words c s : enc_words c (dec_words c s) = s.
Proof.
  unfold dec_words, enc_words. rewrite enc_dec_rounds. apply last_round_twice.
Qed.

Lemma quad_ok_read src : quad_ok (read_quad src).
Proof.
  pose proof (read_quad_ok src) as H.
  destruct (read_quad src) as [[[? ?] ?] ?]. exact H.
Qed.

End Inverse.

(** X1. On any instance whose arrays have their 17 entries, fresh, keyed
    or reset, [Encrypt] undoes [Decrypt] and [Decrypt] undoes [Encrypt]
    on every block of 16 bytes. *)
Theorem transforms_are_mutual_inverses (c : SEEDCipher) (B dst dst' : list byte) :
  wf c -> length B = 16%nat ->
  (16 <= length dst)%nat -> (16 <= length dst')%nat ->
  exists pt ct ct' pt',
    Decrypt dst B c = (Normal pt, c) /\
    Encrypt dst' pt c = (Normal ct, c) /\ take 16 ct = B /\
    Encrypt dst B c = (Normal ct', c) /\
    Decrypt dst' ct' c = (Normal pt', c) /\ take 16 pt' = B.
Proof.
  intros Hwf HB Hd Hd'.
  do 4 eexists.
  split; [apply Decrypt_run, Hwf|]. split; [apply Encrypt_run, Hwf|].
  split; [|split; [apply Encrypt_run, Hwf|]; split; [apply Decrypt_run, Hwf|]].
  - rewrite (copy_16 dst) by (apply length_write_quad || exact Hd).
    rewrite read_written by apply dec_words_ok, quad_ok_read.
    rewrite enc_dec_words.
    rewrite copy_16 by (apply length_write_quad || exact Hd').
    rewrite write_read_quad by lia.
    rewrite take_app_length' by (rewrite length_take; lia).
    apply firstn_all2. lia.
  - rewrite (copy_16 dst) by (apply length_write_quad || exact Hd).
    rewrite read_written by apply enc_words_ok, quad_ok_read.
    rewrite dec_enc_words.
    rewrite copy_16 by (apply length_write_quad || exact Hd').
    rewrite write_read_quad by lia.
    rewrite take_app_length' by (rewrite length_take; lia).
    apply firstn_all2. lia.
Qed.

Lemma transforms_are_mutual_inverses_witness :
  exists pt ct ct' pt',
    Decrypt (repeat Byte.x00 16) (repeat Byte.x5a 16) new_SEEDCipher
      = (Normal pt, new_SEEDCipher) /\
    Encrypt (repeat Byte.x00 17) pt new_SEEDCipher = (Normal ct, new_SEEDCipher) /\
    take 16 ct = repeat Byte.x5a 16 /\
    Encrypt (repeat Byte.x00 16) (repeat Byte.x5a 16) new_SEEDCipher
      = (Normal ct', new_SEEDCipher) /\
    Decrypt (repeat Byte.x00 17) ct' new_SEEDCipher = (Normal pt', new_SEEDCipher) /\
    take 16 pt' = repeat Byte.x5a 16.
Proof.
  apply (transforms_are_mutual_inverses new_SEEDCipher (repeat Byte.x5a 16)
           (repeat Byte.x00 16) (repeat Byte.x00 17)).
  - exact wf_new.
  - reflexivity.
  - cbn. lia.
  - cbn. lia.
Defined.

(** X2. Under one instance [Encrypt] is a bijection of the 16-byte
    blocks: two blocks with the same ciphertext are the same block, and
    every block is the ciphertext of some block. *)
Theorem Encrypt_bijective (c : SEEDCipher) :
  wf c ->
  (forall P P' dst : list byte,
     length P = 16%nat -> length P' = 16%nat -> (16 <= length dst)%nat ->
     fst (Encrypt dst P c) = fst (Encrypt dst P' c) -> P = P') /\
  (forall C : list byte,
     length C = 16%nat ->
     exists P, length P = 16%nat /\
               fst (Encrypt (repeat Byte.x00 16) P c) = Normal C).
Proof.
  intros Hwf. split.
  - intros P P' dst HP HP' Hd Heq.
    rewrite !Encrypt_run in Heq by exact Hwf. cbn [fst] in Heq.
    injection Heq as Heq.
    rewrite !copy_16 in Heq by (apply length_write_quad || exact Hd).
    apply app_inv_tail in Heq.
    apply (f_equal read_quad) in Heq.
    rewrite <- (app_nil_r (write_quad (enc_words c (read_quad P)))) in Heq.
    rewrite <- (app_nil_r (write_quad (enc_words c (read_quad P')))) in Heq.
    rewrite !read_written in Heq by apply enc_words_ok, quad_ok_read.
    apply (f_equal (dec_words c)) in Heq. rewrite !dec_enc_words in Heq.
    apply (f_equal write_quad) in Heq.
    rewrite !write_read_quad in Heq by lia.
    rewrite !firstn_all2 in Heq by lia. exact Heq.
  - intros C HC.
    exists (write_quad (dec_words c (read_quad C))).
    split; [apply length_write_quad|].
    rewrite Encrypt_run by exact Hwf. cbn [fst]. f_equal.
    rewrite <- (app_nil_r (write_quad (dec_words c (read_quad C)))) at 1.
    rewrite read_written by apply dec_words_ok, quad_ok_read.
    rewrite enc_dec_words, write_read_quad by lia.
    rewrite copy_16 by (rewrite ?length_take, ?repeat_length; lia).
    cbn [repeat drop]. rewrite app_nil_r. apply firstn_all2. lia.
Qed.

Lemma Encrypt_bijective_witness :
  (forall P P' dst : list byte,
     length P = 16%nat -> length P' = 16%nat -> (16 <= length dst)%nat ->
     fst (Encrypt dst P new_SEEDCipher) = fst (Encrypt dst P' new_SEEDCipher) ->
     P = P') /\
  (forall C : list byte,
     length C = 16%nat ->
     exists P, length P = 16%nat /\
               fst (Encrypt (repeat Byte.x00 16) P new_SEEDCipher) = Normal C).
Proof. apply (Encrypt_bijective new_SEEDCipher). exact wf_new. Defined.

(** ** Decryption, round by round *)

Section Unrounds.

Lemma dec_rounds_spec c s n :
  (n <= 15)%nat ->
  fold_left (dec_round c) (rev (seq (16 - n) n)) s
  = Extra.unrounds (fun i => nth i (k0 c) 0) (fun i => nth i (k1 c) 0) s n.
Proof.
  induction n as [|n IH]; intros Hn.
  - reflexivity.
  - replace (16 - S n)%nat with (15 - n)%nat by lia.
    cbn [seq rev]. replace (S (15 - n)) with (16 - n)%nat by lia.
    rewrite fold_left_app, IH by lia. cbn [fold_left Extra.unrounds].
    unfold dec_round. reflexivity.
Qed.

End Unrounds.

(** X3. On a 16-byte block, [Decrypt] unpacks four big-endian words
    (L0, L1, R0, R1), first updates L0 and L1 with F(k0[16], k1[16], R0, R1),
    then for i from 15 down to 1 computes (f0, f1) = F(k0[i], k1[i], L0, L1)
    and replaces the state by (R0 xor f0, R1 xor f1, L0, L1), and writes
    the big-endian bytes of the state over the first 16 bytes of the
    destination. *)
Theorem Decrypt_feistel (c : SEEDCipher) (dst src : list byte) :
  wf c -> length src = 16%nat -> (16 <= length dst)%nat ->
  let K0 := fun i => nth i (k0 c) 0 in
  let K1 := fun i => nth i (k1 c) 0 in
  let '(L0, L1, R0, R1) := Spec.unpack src in
  let '(f0, f1) := f (K0 16%nat) (K1 16%nat) R0 R1 in
  Decrypt dst src c
  = (Normal (Spec.pack (Extra.unrounds K0 K1
                          (Z.lxor L0 f0, Z.lxor L1 f1, R0, R1) 15)
             ++ drop 16 dst), c).
Proof.
  intros Hwf Hsrc Hdst K0 K1.
  rewrite (Decrypt_run c dst src Hwf).
  rewrite copy_16 by (apply length_write_quad || exact Hdst).
  rewrite write_quad_pack, (read_quad_unpack src Hsrc).
  destruct (Spec.unpack src) as [[[L0 L1] R0] R1].
  unfold dec_words, last_round. fold (K0 16%nat) (K1 16%nat).
  destruct (f (K0 16%nat) (K1 16%nat) R0 R1) as [f0 f1].
  rewrite (dec_rounds_spec c _ 15) by lia. reflexivity.
Qed.

Lemma Decrypt_feistel_witness :
  let c := new_SEEDCipher in
  let src := repeat Byte.x01 16 in
  let dst := repeat Byte.x00 20 in
  let K0 := fun i => nth i (k0 c) 0 in
  let K1 := fun i => nth i (k1 c) 0 in
  let '(L0, L1, R0, R1) := Spec.unpack src in
  let '(f0, f1) := f (K0 16%nat) (K1 16%nat) R0 R1 in
  Decrypt dst src c
  = (Normal (Spec.pack (Extra.unrounds K0 K1
                          (Z.lxor L0 f0, Z.lxor L1 f1, R0, R1) 15)
             ++ drop 16 dst), c).
Proof.
  apply (Decrypt_feistel new_SEEDCipher (repeat Byte.x00 20) (repeat Byte.x01 16)).
  - exact wf_new.
  - reflexivity.
  - cbn. lia.
Defined.

(** ** Decryption is encryption with the round keys reversed *)

Section Reversal.

Lemma dec_round_swap c s i :
  dec_round c s i = Extra.swap_halves (enc_round c (Extra.swap_halves s) i).
Proof.
  destruct s as [[[l0 l1] r0] r1]. unfold dec_round, enc_round, Extra.swap_halves.
  destruct (f _ _ l0 l1) as [f0 f1]. reflexivity.
Qed.

Lemma swap_swap s : Extra.swap_halves (Extra.swap_halves s) = s.
Proof. destruct s as [[[l0 l1] r0] r1]. reflexivity. Qed.

Lemma last_round_swap c s : last_round c s = Extra.swap_halves (enc_round c s 16).
Proof.
  destruct s as [[[l0 l1] r0] r1]. unfold last_round, enc_round, Extra.swap_halves.
  destruct (f _ _ r0 r1) as [f0 f1]. reflexivity.
Qed.

Lemma dec_rounds_swap c idx :
  forall s, fold_left (dec_round c) idx s
            = Extra.swap_halves (fold_left (enc_round c) idx (Extra.swap_halves s)).
Proof.
  induction idx as [|i idx IH]; intros s; cbn [fold_left].
  - symmetry. apply swap_swap.
  - rewrite IH, dec_round_swap, swap_swap. reflexivity.
Qed.

Lemma fold_enc_round_ext c c' (h : nat -> nat) idx :
  (forall i, In i idx ->
     nth i (k0 c') 0 = nth (h i) (k0 c) 0 /\ nth i (k1 c') 0 = nth (h i) (k1 c) 0) ->
  forall s, fold_left (enc_round c') idx s = fold_left (enc_round c) (map h idx) s.
Proof.
  induction idx as [|i idx IH]; intros Hk s; cbn [fold_left map].
  - reflexivity.
  - rewrite IH by (intros j Hj; apply Hk; right; exact Hj).
    f_equal. unfold enc_round. destruct s as [[[l0 l1] r0] r1].
    destruct (Hk i (or_introl eq_refl)) as [-> ->]. reflexivity.
Qed.

Lemma wf_reverse_keys c : wf c -> wf (Extra.reverse_keys c).
Proof.
  intros [H0 H1]. split; cbn; rewrite length_rev, length_drop; lia.
Qed.

Lemma nth_reverse_keys c i :
  wf c -> (1 <= i <= 16)%nat ->
  nth i (k0 (Extra.reverse_keys c)) 0 = nth (17 - i) (k0 c) 0 /\
  nth i (k1 (Extra.reverse_keys c)) 0 = nth (17 - i) (k1 c) 0.
Proof.
  intros [H0 H1] Hi. destruct c as [a b]. cbn [k0 k1] in *.
  do 17 (destruct a as [|? a]; [discriminate H0|]).
  destruct a; [|discriminate H0].
  do 17 (destruct b as [|? b]; [discriminate H1|]).
  destruct b; [|discriminate H1].
  unfold Extra.reverse_keys. cbn [k0 k1 drop rev app].
  do 17 (destruct i as [|i]; [try lia; split; reflexivity|]). lia.
Qed.

Lemma enc_words_ext c1 c2 s :
  Extra.same_round_keys c1 c2 -> enc_words c1 s = enc_words c2 s.
Proof.
  intros Hs. unfold enc_words, last_round.
  rewrite (fold_enc_round_ext c2 c1 (fun i => i)), map_id.
  - destruct (fold_left _ _ _) as [[[l0 l1] r0] r1].
    destruct (Hs 16%nat ltac:(lia)) as [-> ->]. reflexivity.
  - intros i Hi. apply in_seq in Hi. apply Hs. lia.
Qed.

Lemma dec_words_reverse c s :
  wf c -> dec_words c s = enc_words (Extra.reverse_keys c) s.
Proof.
  intros Hwf. unfold dec_words, enc_words.
  rewrite dec_rounds_swap, !last_round_swap, swap_swap. f_equal.
  transitivity (fold_left (enc_round (Extra.reverse_keys c)) (seq 1 16) s).
  - rewrite (fold_enc_round_ext c (Extra.reverse_keys c) (fun i => (17 - i)%nat)).
    + reflexivity.
    + intros i Hi. apply in_seq in Hi. apply nth_reverse_keys; [exact Hwf | lia].
  - change (seq 1 16) with (seq 1 15 ++ [16%nat]).
    rewrite fold_left_app. reflexivity.
Qed.

Lemma reverse_keys_twice c :
  wf c -> Extra.same_round_keys (Extra.reverse_keys (Extra.reverse_keys c)) c.
Proof.
  intros Hwf i Hi.
  destruct (nth_reverse_keys (Extra.reverse_keys c) i (wf_reverse_keys c Hwf) Hi)
    as [-> ->].
  destruct (nth_reverse_keys c (17 - i) Hwf ltac:(lia)) as [-> ->].
  replace (17 - (17 - i))%nat with i by lia. split; reflexivity.
Qed.

End Reversal.

(** X4. [Decrypt] with an instance writes what [Encrypt] writes with the
    instance whose sixteen round-key pairs are in the opposite order. *)
Theorem Decrypt_is_Encrypt_with_reversed_keys (c : SEEDCipher) (dst src : list byte) :
  wf c ->
  fst (Decrypt dst src c) = fst (Encrypt dst src (Extra.reverse_keys c)) /\
  fst (Encrypt dst src c) = fst (Decrypt dst src (Extra.reverse_keys c)) /\
  (forall i, (1 <= i <= 16)%nat ->
     nth i (k0 (Extra.reverse_keys c)) 0 = nth (17 - i) (k0 c) 0 /\
     nth i (k1 (Extra.reverse_keys c)) 0 = nth (17 - i) (k1 c) 0).
Proof.
  intros Hwf. pose proof (wf_reverse_keys c Hwf) as Hwf'.
  rewrite !Encrypt_run, !Decrypt_run by assumption. cbn [fst].
  split; [rewrite dec_words_reverse by exact Hwf; reflexivity|].
  split; [|intros i Hi; apply nth_reverse_keys; assumption].
  rewrite (dec_words_reverse (Extra.reverse_keys c)) by exact Hwf'.
  rewrite (enc_words_ext (Extra.reverse_keys (Extra.reverse_keys c)) c)
    by (apply reverse_keys_twice, Hwf).
  reflexivity.
Qed.

Lemma Decrypt_is_Encrypt_with_reversed_keys_witness :
  let c := {| k0 := map Z.of_nat (seq 100 17); k1 := map Z.of_nat (seq 200 17) |} in
  let dst := repeat Byte.x00 16 in
  let src := repeat Byte.x3c 16 in
  fst (Decrypt dst src c) = fst (Encrypt dst src (Extra.reverse_keys c)) /\
  fst (Encrypt dst src c) = fst (Decrypt dst src (Extra.reverse_keys c)) /\
  (forall i, (1 <= i <= 16)%nat ->
     nth i (k0 (Extra.reverse_keys c)) 0 = nth (17 - i) (k0 c) 0 /\
     nth i (k1 (Extra.reverse_keys c)) 0 = nth (17 - i) (k1 c) 0).
Proof.
  apply (Decrypt_is_Encrypt_with_reversed_keys
           {| k0 := map Z.of_nat (seq 100 17); k1 := map Z.of_nat (seq 200 17) |}
           (repeat Byte.x00 16) (repeat Byte.x3c 16)).
  split; reflexivity.
Defined.

(** ** Entry 0 of the arrays *)

Section UnusedEntry.

Lemma dec_words_ext c1 c2 s :
  wf c1 -> wf c2 ->
  Extra.same_round_keys c1 c2 -> dec_words c1 s = dec_words c2 s.
Proof.
  intros H1 H2 Hs. rewrite !dec_words_reverse by assumption.
  apply enc_words_ext. intros i Hi.
  destruct (nth_reverse_keys c1 i H1 Hi) as [-> ->].
  destruct (nth_reverse_keys c2 i H2 Hi) as [-> ->].
  apply Hs. lia.
Qed.

End UnusedEntry.

(** X5. [Encrypt] and [Decrypt] use entries 1 to 16 of [k0] and [k1]
    only: two instances that agree on those write the same bytes,
    whatever their entries 0 hold. *)
Theorem transforms_ignore_entry_0 (c c' : SEEDCipher) (dst src : list byte) :
  wf c -> wf c' -> Extra.same_round_keys c c' ->
  fst (Encrypt dst src c) = fst (Encrypt dst src c') /\
  fst (Decrypt dst src c) = fst (Decrypt dst src c').
Proof.
  intros Hwf Hwf' Hs.
  rewrite !Encrypt_run, !Decrypt_run by assumption. cbn [fst].
  rewrite (enc_words_ext c c') by exact Hs.
  rewrite (dec_words_ext c c') by assumption.
  split; reflexivity.
Qed.

Lemma transforms_ignore_entry_0_witness :
  let c := {| k0 := 7 :: map Z.of_nat (seq 100 16);
              k1 := 8 :: map Z.of_nat (seq 200 16) |} in
  let c' := {| k0 := 0 :: map Z.of_nat (seq 100 16);
               k1 := 0 :: map Z.of_nat (seq 200 16) |} in
  fst (Encrypt (repeat Byte.x00 16) (repeat Byte.x3c 16) c)
  = fst (Encrypt (repeat Byte.x00 16) (repeat Byte.x3c 16) c') /\
  fst (Decrypt (repeat Byte.x00 16) (repeat Byte.x3c 16) c)
  = fst (Decrypt (repeat Byte.x00 16) (repeat Byte.x3c 16) c').
Proof.
  apply (transforms_ignore_entry_0
           {| k0 := 7 :: map Z.of_nat (seq 100 16);
              k1 := 8 :: map Z.of_nat (seq 200 16) |}
           {| k0 := 0 :: map Z.of_nat (seq 100 16);
              k1 := 0 :: map Z.of_nat (seq 200 16) |}).
  - split; reflexivity.
  - split; reflexivity.
  - intros i Hi.
    do 17 (destruct i as [|i]; [try lia; split; reflexivity|]). lia.
Defined.

(** ** In place *)

(** X6. Called with the same buffer as source and destination, [Encrypt]
    and then [Decrypt] give the buffer back whole: its first 16 bytes
    through the round trip, the bytes after them because neither call
    touches them. *)
Theorem in_place_roundtrip (c : SEEDCipher) (buf : list byte) :
  wf c -> (16 <= length buf)%nat ->
  exists ct,
    Encrypt buf buf c = (Normal ct, c) /\ length ct = length buf /\
    Decrypt ct ct c = (Normal buf, c).
Proof.
  intros Hwf Hlen. eexists.
  split; [apply Encrypt_run, Hwf|].
  split; [apply length_copy|].
  rewrite Decrypt_run by exact Hwf. do 2 f_equal.
  rewrite (copy_16 buf) by (apply length_write_quad || exact Hlen).
  rewrite read_written by apply enc_words_ok, quad_ok_read.
  rewrite dec_enc_words.
  rewrite copy_16
    by (rewrite ?length_app, ?length_drop, ?length_write_quad; lia).
  rewrite write_read_quad by exact Hlen.
  rewrite drop_app_length' by (symmetry; apply length_write_quad).
  apply take_drop.
Qed.

Lemma in_place_roundtrip_witness :
  exists ct,
    Encrypt (repeat Byte.x3c 19) (repeat Byte.x3c 19) new_SEEDCipher
      = (Normal ct, new_SEEDCipher) /\
    length ct = length (repeat Byte.x3c 19) /\
    Decrypt ct ct new_SEEDCipher = (Normal (repeat Byte.x3c 19), new_SEEDCipher).
Proof.
  apply (in_place_roundtrip new_SEEDCipher (repeat Byte.x3c 19)).
  - exact wf_new.
  - cbn. lia.
Defined.

(** ** G and the tables *)

Section GBytes.

Lemma g_index_0 x : Z.land x 0x000000ff = x mod 2 ^ 8.
Proof. change 0x000000ff with (Z.ones 8). apply Z.land_ones. lia. Qed.

Lemma g_index (x mask s : Z) :
  0 <= s -> Z.shiftr mask s = Z.ones 8 ->
  U32.shr (Z.land x mask) s = (x / 2 ^ s) mod 2 ^ 8.
Proof.
  intros Hs Hm. unfold U32.shr.
  rewrite Z.shiftr_land, Hm, Z.land_ones, Z.shiftr_div_pow2 by lia.
  reflexivity.
Qed.

End GBytes.

(** X7. For every argument, [g] is the exclusive or of SS0, SS1, SS2 and
    SS3 at the four bytes of the argument, least significant byte first;
    each of the four indices is below 256, the length of its table; and
    the result is a 32-bit word. *)
Theorem g_by_bytes (x : Z) :
  g x = Extra.G x /\
  (0 <= x mod 2 ^ 8 < Z.of_nat (length ss0)) /\
  (0 <= (x / 2 ^ 8) mod 2 ^ 8 < Z.of_nat (length ss1)) /\
  (0 <= (x / 2 ^ 16) mod 2 ^ 8 < Z.of_nat (length ss2)) /\
  (0 <= (x / 2 ^ 24) mod 2 ^ 8 < Z.of_nat (length ss3)) /\
  U32.ok (g x).
Proof.
  split.
  - with_strategy transparent [g] unfold g. unfold Extra.G. cbv zeta.
    rewrite g_index_0, !g_index by (lia || reflexivity). reflexivity.
  - change (length ss0) with 256%nat. change (length ss1) with 256%nat.
    change (length ss2) with 256%nat. change (length ss3) with 256%nat.
    pose proof (Z.mod_pos_bound x (2 ^ 8) ltac:(lia)).
    pose proof (Z.mod_pos_bound (x / 2 ^ 8) (2 ^ 8) ltac:(lia)).
    pose proof (Z.mod_pos_bound (x / 2 ^ 16) (2 ^ 8) ltac:(lia)).
    pose proof (Z.mod_pos_bound (x / 2 ^ 24) (2 ^ 8) ltac:(lia)).
    repeat (split; [lia|]). apply g_ok.
Qed.

Section TableChecks.

Lemma forallb_nth {A} (p : A -> bool) (l : list A) (d : A) i :
  forallb p l = true -> (i < length l)%nat -> p (nth i l d) = true.
Proof.
  intros H Hi. rewrite forallb_forall in H. apply H, nth_In, Hi.
Qed.

Lemma forallb_seq (p : nat -> bool) n i :
  forallb p (seq 0 n) = true -> (i < n)%nat -> p i = true.
Proof.
  intros H Hi. rewrite forallb_forall in H. apply H, in_seq. lia.
Qed.

Lemma rot16_pairs_nth lo hi i :
  Extra.rot16_pairs lo hi = true -> length lo = length hi ->
  (i < length lo)%nat ->
  nth i hi 0 = Extra.rotl32 (nth i lo 0) 16.
Proof.
  intros H Hlen Hi. unfold Extra.rot16_pairs in H.
  pose proof (forallb_nth _ _ (0, 0) i H) as Hp.
  rewrite length_combine, <- Hlen, Nat.min_id in Hp. specialize (Hp Hi).
  rewrite combine_nth in Hp by exact Hlen. cbn [fst snd] in Hp.
  symmetry. apply Z.eqb_eq, Hp.
Qed.

Lemma masked_bytes_nth mask tbl i :
  Extra.masked_bytes mask tbl = true -> (i < length tbl)%nat ->
  nth i tbl 0 = Z.land (Extra.sbox_byte (nth i tbl 0) * 0x01010101) mask.
Proof.
  intros H Hi. apply Z.eqb_eq.
  exact (forallb_nth _ _ 0 i H Hi).
Qed.

Lemma hits_every_byte_nth tbl b :
  Extra.hits_every_byte tbl = true -> 0 <= b < 256 ->
  exists i, (i < length tbl)%nat /\ Extra.sbox_byte (nth i tbl 0) = b.
Proof.
  intros H Hb. unfold Extra.hits_every_byte in H.
  pose proof (forallb_seq _ 256 (Z.to_nat b) H ltac:(lia)) as Hex.
  cbv beta in Hex. apply existsb_exists in Hex. destruct Hex as (w & Hin & Hw).
  apply Z.eqb_eq in Hw. rewrite Z2Nat.id in Hw by lia.
  apply in_map_iff in Hin. destruct Hin as (x & Hx & Hin).
  destruct (In_nth _ _ 0 Hin) as (i & Hi & Hnth).
  exists i. split; [exact Hi|]. rewrite Hnth. congruence.
Qed.

Lemma all_distinct_NoDup l : Extra.all_distinct l = true -> List.NoDup l.
Proof.
  induction l as [|x l IH]; cbn [Extra.all_distinct]; intros H.
  - apply List.NoDup_nil.
  - apply andb_prop in H. destruct H as [Hx Hl].
    apply List.NoDup_cons; [|apply IH, Hl].
    intros Hin. apply Bool.negb_true_iff in Hx.
    assert (Hex : existsb (Z.eqb x) l = true).
    { apply existsb_exists. exists x. split; [exact Hin | apply Z.eqb_refl]. }
    congruence.
Qed.

Lemma distinct_bytes_nth tbl i j :
  Extra.distinct_bytes tbl = true -> (i < length tbl)%nat -> (j < length tbl)%nat ->
  Extra.sbox_byte (nth i tbl 0) = Extra.sbox_byte (nth j tbl 0) -> i = j.
Proof.
  intros H Hi Hj Heq. apply all_distinct_NoDup in H.
  apply (proj1 (List.NoDup_nth (map Extra.sbox_byte tbl) (Extra.sbox_byte 0)) H);
    rewrite ?length_map; try assumption.
  rewrite !map_nth. exact Heq.
Qed.

End TableChecks.

(** X8. The four extended S-boxes have the shape of two byte
    substitutions.  For every index below 256, SS0[i] is one byte
    repeated in its four byte positions and masked with 0x3FCFF3FC, SS1[i]
    likewise with the mask 0xFC3FCFF3, SS2[i] is SS0[i] rotated by 16 bits
    and SS3[i] is SS1[i] rotated by 16 bits. *)
Theorem sbox_tables_shape (i : nat) :
  (i < 256)%nat ->
  nth i ss0 0 = Z.land (Extra.sbox_byte (nth i ss0 0) * 0x01010101) 0x3FCFF3FC /\
  nth i ss1 0 = Z.land (Extra.sbox_byte (nth i ss1 0) * 0x01010101) 0xFC3FCFF3 /\
  nth i ss2 0 = Extra.rotl32 (nth i ss0 0) 16 /\
  nth i ss3 0 = Extra.rotl32 (nth i ss1 0) 16 /\
  0 <= Extra.sbox_byte (nth i ss0 0) < 256 /\
  0 <= Extra.sbox_byte (nth i ss1 0) < 256.
Proof.
  intros Hi.
  split; [apply masked_bytes_nth; [vm_compute; reflexivity | exact Hi]|].
  split; [apply masked_bytes_nth; [vm_compute; reflexivity | exact Hi]|].
  split; [apply rot16_pairs_nth; [vm_compute; reflexivity | reflexivity | exact Hi]|].
  split; [apply rot16_pairs_nth; [vm_compute; reflexivity | reflexivity | exact Hi]|].
  assert (Hb0 : forallb (fun w => (0 <=? Extra.sbox_byte w) && (Extra.sbox_byte w <? 256)) ss0 = true)
    by (vm_compute; reflexivity).
  assert (Hb1 : forallb (fun w => (0 <=? Extra.sbox_byte w) && (Extra.sbox_byte w <? 256)) ss1 = true)
    by (vm_compute; reflexivity).
  pose proof (forallb_nth _ _ 0 i Hb0 Hi) as H0.
  pose proof (forallb_nth _ _ 0 i Hb1 Hi) as H1.
  cbv beta in H0, H1. lia.
Qed.

Lemma sbox_tables_shape_witness :
  nth 0 ss0 0 = Z.land (Extra.sbox_byte (nth 0 ss0 0) * 0x01010101) 0x3FCFF3FC /\
  nth 0 ss1 0 = Z.land (Extra.sbox_byte (nth 0 ss1 0) * 0x01010101) 0xFC3FCFF3 /\
  nth 0 ss2 0 = Extra.rotl32 (nth 0 ss0 0) 16 /\
  nth 0 ss3 0 = Extra.rotl32 (nth 0 ss1 0) 16 /\
  0 <= Extra.sbox_byte (nth 0 ss0 0) < 256 /\
  0 <= Extra.sbox_byte (nth 0 ss1 0) < 256.
Proof. apply (sbox_tables_shape 0). lia. Defined.

(** X9. The bytes the entries of SS0 are made of are a permutation of
    the 256 bytes, and so are those of SS1: two different indices give
    different bytes, and every byte is given by some index. *)
Theorem sbox_bytes_are_permutations (i j : nat) (b : Z) :
  (i < 256)%nat -> (j < 256)%nat -> 0 <= b < 256 ->
  (Extra.sbox_byte (nth i ss0 0) = Extra.sbox_byte (nth j ss0 0) -> i = j) /\
  (Extra.sbox_byte (nth i ss1 0) = Extra.sbox_byte (nth j ss1 0) -> i = j) /\
  (exists n, (n < 256)%nat /\ Extra.sbox_byte (nth n ss0 0) = b) /\
  (exists n, (n < 256)%nat /\ Extra.sbox_byte (nth n ss1 0) = b).
Proof.
  intros Hi Hj Hb.
  split; [apply distinct_bytes_nth; [vm_compute; reflexivity | exact Hi | exact Hj]|].
  split; [apply distinct_bytes_nth; [vm_compute; reflexivity | exact Hi | exact Hj]|].
  split.
  - apply (hits_every_byte_nth ss0 b); [vm_compute; reflexivity | exact Hb].
  - apply (hits_every_byte_nth ss1 b); [vm_compute; reflexivity | exact Hb].
Qed.

Lemma sbox_bytes_are_permutations_witness :
  (Extra.sbox_byte (nth 3 ss0 0) = Extra.sbox_byte (nth 5 ss0 0) -> 3%nat = 5%nat) /\
  (Extra.sbox_byte (nth 3 ss1 0) = Extra.sbox_byte (nth 5 ss1 0) -> 3%nat = 5%nat) /\
  (exists n, (n < 256)%nat /\ Extra.sbox_byte (nth n ss0 0) = 0xA9) /\
  (exists n, (n < 256)%nat /\ Extra.sbox_byte (nth n ss1 0) = 0xA9).
Proof. apply (sbox_bytes_are_permutations 3 5 0xA9); lia. Defined.

(** X10. The round constants are one constant rotated: KC has 17
    entries, entry 0 is the unused zero, and each of KC[2] .. KC[16] is
    the entry before it rotated left by one bit. *)
Theorem kc_rotations (i : nat) :
  (1 <= i <= 15)%nat ->
  nth (S i) kc 0 = Extra.rotl32 (nth i kc 0) 1 /\
  length kc = 17%nat /\ nth 0 kc 0 = 0.
Proof.
  intros Hi. split; [|split; reflexivity].
  assert (H : Extra.rotl1_steps kc = true) by (vm_compute; reflexivity).
  unfold Extra.rotl1_steps in H. rewrite forallb_forall in H.
  apply Z.eqb_eq, H, in_seq. lia.
Qed.

Lemma kc_rotations_witness :
  nth 2 kc 0 = Extra.rotl32 (nth 1 kc 0) 1 /\
  length kc = 17%nat /\ nth 0 kc 0 = 0.
Proof. apply (kc_rotations 1). lia. Defined.

(** ** Keying an instance again *)

Section Rekeying.

Lemma scheduled_agree key c1 c2 i :
  scheduled key c1 i -> scheduled key c2 i ->
  nth i (k0 c1) 0 = nth i (k0 c2) 0 /\ nth i (k1 c1) 0 = nth i (k1 c2) 0.
Proof.
  unfold scheduled. destruct (ks_words key (i - 1)) as [[[a0 a1] a2] a3].
  intros [H0 H1] [H0' H1']. split; congruence.
Qed.

Lemma subkeys_overwrites key c1 c2 :
  wf c1 -> wf c2 ->
  nth 0 (k0 c1) 0 = nth 0 (k0 c2) 0 -> nth 0 (k1 c1) 0 = nth 0 (k1 c2) 0 ->
  snd (fold_left ks_round (seq 1 16) (key, c1))
  = snd (fold_left ks_round (seq 1 16) (key, c2)).
Proof.
  intros Hwf1 Hwf2 E0 E1.
  destruct (ks_round_spec key c1 16 Hwf1 (Nat.le_refl 16))
    as (_ & [La Lb] & A0 & A1 & As).
  destruct (ks_round_spec key c2 16 Hwf2 (Nat.le_refl 16))
    as (_ & [La' Lb'] & B0 & B1 & Bs).
  destruct (snd (fold_left ks_round (seq 1 16) (key, c1))) as [a b].
  destruct (snd (fold_left ks_round (seq 1 16) (key, c2))) as [a' b'].
  cbn [k0 k1] in *.
  assert (Hnth : forall n, (n < 17)%nat ->
            nth n a 0 = nth n a' 0 /\ nth n b 0 = nth n b' 0).
  { intros n Hn. destruct n as [|n].
    - split; congruence.
    - apply (scheduled_agree key (mkSEED a b) (mkSEED a' b') (S n));
        [apply As | apply Bs]; lia. }
  f_equal; apply (nth_ext _ _ 0 0); try congruence; intros n Hn; apply Hnth; lia.
Qed.

End Rekeying.

(** X11. The key schedule overwrites all sixteen round-key pairs: run on
    an instance that was keyed before or reset, with entry 0 of both
    arrays zero as [new] and [Reset] leave it, it returns normally with
    exactly the instance [NewSEED] builds from the key; and the instance
    [NewSEED] builds has entry 0 zero itself. *)
Theorem subkeys_rekeys (c : SEEDCipher) (key : list byte) :
  wf c -> length key = 16%nat ->
  nth 0 (k0 c) 0 = 0 -> nth 0 (k1 c) 0 = 0 ->
  exists cn,
    subkeys key c = (Normal tt, cn) /\
    NewSEED key = Normal (Some cn, None) /\
    nth 0 (k0 cn) 0 = 0 /\ nth 0 (k1 cn) 0 = 0 /\
    (exists cr, Reset c = (Normal tt, cr) /\ subkeys key cr = (Normal tt, cn)).
Proof.
  intros Hwf Hlen E0 E1.
  destruct (subkeys_run key c Hwf) as [Hrun _].
  destruct (NewSEED_run key Hlen) as [Hnew _].
  assert (Hsame : forall c', wf c' -> nth 0 (k0 c') 0 = 0 -> nth 0 (k1 c') 0 = 0 ->
            subkeys key c'
            = (Normal tt, snd (fold_left ks_round (seq 1 16)
                                 (read_quad key, new_SEEDCipher)))).
  { intros c' Hwf' F0 F1. destruct (subkeys_run key c' Hwf') as [Hrun' _].
    rewrite Hrun'. f_equal.
    apply subkeys_overwrites; [exact Hwf' | exact wf_new | exact F0 | exact F1]. }
  eexists. split; [apply Hsame; assumption|]. split; [exact Hnew|].
  destruct (ks_round_spec (read_quad key) new_SEEDCipher 16 wf_new (Nat.le_refl 16))
    as (_ & _ & A0 & A1 & _).
  split; [exact A0|]. split; [exact A1|].
  destruct (Reset_run c Hwf) as [Hreset Hwfr].
  rewrite (reset_rounds_zero c Hwf) in Hreset, Hwfr.
  eexists. split; [exact Hreset|].
  apply Hsame; [exact Hwfr | reflexivity | reflexivity].
Qed.

Lemma subkeys_rekeys_witness :
  let c := {| k0 := 0 :: map Z.of_nat (seq 100 16);
              k1 := 0 :: map Z.of_nat (seq 200 16) |} in
  let key := repeat Byte.x07 16 in
  exists cn,
    subkeys key c = (Normal tt, cn) /\
    NewSEED key = Normal (Some cn, None) /\
    nth 0 (k0 cn) 0 = 0 /\ nth 0 (k1 cn) 0 = 0 /\
    (exists cr, Reset c = (Normal tt, cr) /\ subkeys key cr = (Normal tt, cn)).
Proof.
  apply (subkeys_rekeys
           {| k0 := 0 :: map Z.of_nat (seq 100 16);
              k1 := 0 :: map Z.of_nat (seq 200 16) |}
           (repeat Byte.x07 16)).
  - split; reflexivity.
  - reflexivity.
  - reflexivity.
  - reflexivity.
Defined.
